(** * Skill extraction and matching (backend/utils/skill_matcher.py)

    A shallow embedding of the skill catalog, [extract_skills],
    [calculate_match] and [get_skill_suggestions], with the properties the
    specification states about them.

    Text model.  A Python [str] is a sequence of code points; here a text is
    a [string], whose characters are read as the code points U+0000..U+00FF.
    On that range [str.lower], the regular-expression classes [\w] and [\s]
    and the comparison of strings are given by the tables below.  Every
    catalog entry and every string literal of the module is ASCII.

    Sets and dicts are [gset string] and [gmap string string]; the only
    observations the code makes of a set are its size and its sorted
    contents, so the iteration order of a Python set plays no role. *)

From Stdlib Require Import Ascii String ZArith NArith Bool.
From Stdlib Require Import PrimFloat FloatOps SpecFloat Uint63.
From stdpp Require Import base option list sets gmap strings sorting.

Local Open Scope string_scope.
Local Open Scope list_scope.
Local Open Scope stdpp_scope.

Set Warnings "-inexact-float".

(** ** Characters *)

Definition code (c : ascii) : N := N_of_ascii c.

Definition in_range (lo hi : N) (c : ascii) : bool :=
  (lo <=? code c)%N && (code c <=? hi)%N.

(** [\w] of Python's [re] on [str] patterns: alphanumeric or underscore. *)
Definition is_word (c : ascii) : bool :=
  in_range 48 57 c || in_range 65 90 c || (code c =? 95)%N
  || in_range 97 122 c || (code c =? 170)%N || in_range 178 179 c
  || (code c =? 181)%N || in_range 185 186 c || in_range 188 190 c
  || in_range 192 214 c || in_range 216 246 c || in_range 248 255 c.

(** [\s] of Python's [re] on [str] patterns. *)
Definition is_space (c : ascii) : bool :=
  in_range 9 13 c || in_range 28 32 c || (code c =? 133)%N
  || (code c =? 160)%N.

Definition lower_char (c : ascii) : ascii :=
  if in_range 65 90 c || in_range 192 214 c || in_range 216 222 c
  then ascii_of_N (code c + 32)
  else c.

(** [str.lower()]. *)
Fixpoint lower (s : string) : string :=
  match s with
  | EmptyString => EmptyString
  | String c s' => String (lower_char c) (lower s')
  end.

(** ** Regular-expression primitives used by the module *)

(** The character class [[^\w\s.\-+#]] of the normalisation step. *)
Definition is_kept (c : ascii) : bool :=
  is_word c || is_space c
  || (code c =? 46)%N || (code c =? 45)%N
  || (code c =? 43)%N || (code c =? 35)%N.

(** [re.sub(r'[^\w\s.\-+#]', ' ', s)]. *)
Fixpoint normalize (s : string) : string :=
  match s with
  | EmptyString => EmptyString
  | String c s' => String (if is_kept c then c else " "%char) (normalize s')
  end.

Definition word_opt (o : option ascii) : bool :=
  match o with
  | Some c => is_word c
  | None => false
  end.

(** [\b] between the character [prev] (or the start of the text) and the
    character [next] (or the end of the text). *)
Definition at_boundary (prev next : option ascii) : bool :=
  xorb (word_opt prev) (word_opt next).

Definition head_char (s : string) : option ascii :=
  match s with
  | EmptyString => None
  | String c _ => Some c
  end.

(** The escaped literal [p] read off the front of [s]: the last character
    consumed (or [prev] when [p] is empty) and what is left of [s]. *)
Fixpoint match_literal (p s : string) (prev : option ascii)
  : option (option ascii * string) :=
  match p with
  | EmptyString => Some (prev, s)
  | String a p' =>
      match s with
      | EmptyString => None
      | String b s' =>
          if Ascii.eqb a b then match_literal p' s' (Some b) else None
      end
  end.

(** The pattern [\b p \b] tried at one position of the text. *)
Definition match_here (p s : string) (prev : option ascii) : bool :=
  at_boundary prev (head_char s)
  && match match_literal p s prev with
     | Some (last, rest) => at_boundary last (head_char rest)
     | None => false
     end.

Fixpoint search_from (p s : string) (prev : option ascii) : bool :=
  match_here p s prev
  || match s with
     | EmptyString => false
     | String c s' => search_from p s' (Some c)
     end.

(** [bool(re.search(r'\b' + re.escape(p) + r'\b', text))]. *)
Definition re_search_word (p text : string) : bool :=
  search_from p text None.

(** ['.' in s]. *)
Fixpoint contains_dot (s : string) : bool :=
  match s with
  | EmptyString => false
  | String c s' => Ascii.eqb c "."%char || contains_dot s'
  end.

(** [s.split('.')[0]]. *)
Fixpoint before_dot (s : string) : string :=
  match s with
  | EmptyString => EmptyString
  | String c s' => if Ascii.eqb c "."%char then EmptyString
                   else String c (before_dot s')
  end.

(** ** The catalog *)

Definition SKILLS_DATABASE : list string :=
  [ (* Programming Languages *)
    "Python"; "JavaScript"; "Java"; "C++"; "C#"; "TypeScript"; "Ruby"; "PHP";
    "Swift"; "Kotlin"; "Go"; "Rust"; "Scala"; "R"; "MATLAB"; "Perl";
    "Objective-C"; "Dart"; "Groovy"; "Elixir"; "Haskell"; "Lua"; "C";
    (* Web Technologies - Frontend *)
    "React"; "React.js"; "Angular"; "Vue.js"; "Vue"; "Svelte"; "jQuery";
    "HTML"; "HTML5"; "CSS"; "CSS3"; "SASS"; "SCSS"; "Less"; "Bootstrap";
    "Tailwind CSS"; "Material UI"; "Chakra UI"; "Next.js"; "Nuxt.js"; "Gatsby";
    "Webpack"; "Vite"; "Babel"; "Redux"; "MobX"; "Zustand";
    (* Web Technologies - Backend *)
    "Node.js"; "Express.js"; "Express"; "Django"; "Flask"; "FastAPI";
    "Spring Boot"; "Spring"; "ASP.NET"; ".NET"; "Laravel"; "Ruby on Rails";
    "Rails"; "Symfony"; "NestJS"; "Fastify"; "Koa"; "Hapi";
    (* Databases - SQL *)
    "PostgreSQL"; "MySQL"; "SQL Server"; "Oracle"; "MariaDB"; "SQLite";
    "SQL"; "T-SQL"; "PL/SQL";
    (* Databases - NoSQL *)
    "MongoDB"; "Redis"; "Cassandra"; "DynamoDB"; "Couchbase"; "Neo4j";
    "Firebase"; "Firestore"; "Elasticsearch"; "CouchDB";
    (* Cloud Platforms *)
    "AWS"; "Amazon Web Services"; "Azure"; "Microsoft Azure"; "Google Cloud";
    "GCP"; "Google Cloud Platform"; "DigitalOcean"; "Heroku"; "Vercel"; "Netlify";
    "Oracle Cloud"; "IBM Cloud"; "Alibaba Cloud";
    (* Cloud Services - AWS *)
    "EC2"; "S3"; "Lambda"; "RDS"; "DynamoDB"; "CloudFront"; "Route 53";
    "ECS"; "EKS"; "Elastic Beanstalk"; "CloudWatch"; "SNS"; "SQS";
    (* DevOps & CI/CD *)
    "Docker"; "Kubernetes"; "Jenkins"; "GitLab CI"; "GitHub Actions";
    "CircleCI"; "Travis CI"; "Terraform"; "Ansible"; "Chef"; "Puppet";
    "Vagrant"; "CI/CD"; "Continuous Integration"; "Continuous Deployment";
    (* Version Control *)
    "Git"; "GitHub"; "GitLab"; "Bitbucket"; "SVN"; "Mercurial";
    (* Testing *)
    "Jest"; "Mocha"; "Chai"; "Pytest"; "JUnit"; "TestNG"; "Selenium";
    "Cypress"; "Playwright"; "Puppeteer"; "JMeter"; "Postman"; "Insomnia";
    (* API & Architecture *)
    "REST API"; "RESTful"; "GraphQL"; "gRPC"; "WebSocket"; "Microservices";
    "Monolithic"; "API Gateway"; "Swagger"; "OpenAPI"; "SOAP";
    (* Mobile Development *)
    "Android"; "iOS"; "React Native"; "Flutter"; "Xamarin"; "Ionic";
    "Swift UI"; "Jetpack Compose"; "Cordova";
    (* Data Science & ML *)
    "Machine Learning"; "Deep Learning"; "TensorFlow"; "PyTorch"; "Keras";
    "Scikit-learn"; "Pandas"; "NumPy"; "SciPy"; "Matplotlib"; "Seaborn";
    "Data Analysis"; "Data Science"; "NLP"; "Natural Language Processing";
    "Computer Vision"; "OpenCV"; "NLTK"; "spaCy"; "Hugging Face";
    (* Big Data *)
    "Apache Spark"; "Hadoop"; "Kafka"; "Airflow"; "Databricks"; "Snowflake";
    "BigQuery"; "Redshift"; "ETL"; "Data Pipeline"; "Data Warehouse";
    (* Project Management Tools *)
    "Jira"; "Confluence"; "Trello"; "Asana"; "Monday.com"; "Notion";
    "ClickUp"; "Linear"; "Basecamp";
    (* Methodologies & Practices *)
    "Agile"; "Scrum"; "Kanban"; "Waterfall"; "DevOps"; "TDD";
    "Test-Driven Development"; "BDD"; "Behavior-Driven Development";
    "Pair Programming"; "Code Review"; "Continuous Learning";
    (* Soft Skills *)
    "Leadership"; "Communication"; "Team Management"; "Problem Solving";
    "Critical Thinking"; "Time Management"; "Project Management";
    "Collaboration"; "Mentoring"; "Public Speaking"; "Technical Writing";
    "Analytical Skills"; "Creativity"; "Adaptability"; "Conflict Resolution";
    (* Other Technologies *)
    "GraphQL"; "WebAssembly"; "Blockchain"; "Solidity"; "Ethereum";
    "Smart Contracts"; "Web3"; "Socket.io"; "RabbitMQ"; "Nginx";
    "Apache"; "Linux"; "Unix"; "Shell Scripting"; "Bash"; "PowerShell";
    (* Design & UI/UX *)
    "Figma"; "Adobe XD"; "Sketch"; "Photoshop"; "Illustrator"; "InVision";
    "UI Design"; "UX Design"; "User Research"; "Wireframing"; "Prototyping";
    (* Security *)
    "OAuth"; "JWT"; "Authentication"; "Authorization"; "Encryption";
    "SSL"; "TLS"; "Penetration Testing"; "Security Audit"; "OWASP" ].

(** [{skill.lower(): skill for skill in skills}]: a later entry with the
    same key replaces the earlier one. *)
Definition lower_map (skills : list string) : gmap string string :=
  foldl (fun m skill => <[lower skill := skill]> m) ∅ skills.

Definition SKILLS_LOOKUP : gmap string string := lower_map SKILLS_DATABASE.

(** ** extract_skills *)

(** One iteration of the loop over the catalog: the exact form first, then,
    for an entry with a dot, the part before its first dot. *)
Definition skill_found (text_normalized skill : string) : bool :=
  let skill_lower := lower skill in
  if re_search_word skill_lower text_normalized then true
  else if contains_dot skill_lower
       then re_search_word (before_dot skill_lower) text_normalized
       else false.

Definition collect_found (text_normalized : string) (skills : list string)
  : gset string :=
  foldl (fun found skill =>
           if skill_found text_normalized skill then {[ skill ]} ∪ found
           else found)
        ∅ skills.

(** [sorted(...)] on strings: ascending code-point order. *)
Definition sorted (l : list string) : list string := merge_sort String.le l.

(** [text] is [None] for Python's [None]. *)
Definition extract_skills (text : option string) : list string :=
  match text with
  | None => []
  | Some EmptyString => []
  | Some t =>
      let text_lower := lower t in
      let text_normalized := normalize text_lower in
      let found_skills := collect_found text_normalized SKILLS_DATABASE in
      sorted (elements found_skills)
  end.

(** ** calculate_match *)

(** The result dict, one field per key. *)
Record MatchResult : Type := mkMatchResult {
  score : float;
  matched_skills : list string;
  missing_skills : list string;
  total_jd_skills : nat;
  total_matched : nat
}.

(** [float(n)] for a list length. *)
Definition float_of_nat (n : nat) : float :=
  PrimFloat.of_uint63 (Uint63.of_Z (Z.of_nat n)).

(** [a / b] on two lengths: true division, [None] for ZeroDivisionError. *)
Definition py_truediv (a b : nat) : option float :=
  match b with
  | O => None
  | S _ => Some (float_of_nat a / float_of_nat b)%float
  end.

(** The integer nearest to [n * 2^e], a tie going to the even one. *)
Definition round_half_even_scaled (n e : Z) : Z :=
  if (0 <=? e)%Z then (n * 2 ^ e)%Z
  else
    let d := (2 ^ (- e))%Z in
    let q := (n / d)%Z in
    let r := (n mod d)%Z in
    match (2 * r ?= d)%Z with
    | Lt => q
    | Gt => (q + 1)%Z
    | Eq => if Z.even q then q else (q + 1)%Z
    end.

(** [round(x, 2)]: the exact binary value of [x] is rounded to the nearest
    multiple of 1/100, a tie going to the even hundredth, and the result is
    the binary64 value nearest to that decimal.  Infinities, NaN and zeros
    come back unchanged, and so does a value of magnitude 2^52 or more,
    which is an integer.  The quotient below is that nearest binary64 value
    whenever the number of hundredths is below 2^53, which covers every
    score (a score lies between 0 and 100). *)
Definition py_round2 (x : float) : float :=
  match Prim2SF x with
  | S754_finite s m e =>
      if (2 ^ 52 <=? Z.pos m * 2 ^ e)%Z then x
      else
        let k := round_half_even_scaled (Z.pos m * 100) e in
        let r := (PrimFloat.of_uint63 (Uint63.of_Z k) / 100)%float in
        if s then (- r)%float else r
  | _ => x
  end.

(** [{skill.lower() for skill in skills}]. *)
Definition lower_set (skills : list string) : gset string :=
  list_to_set (lower <$> skills).

(** [[jd_skill_map[skill] for skill in keys]]; [None] stands for the
    KeyError of a key that the dict does not hold. *)
Definition restore_casing (jd_skill_map : gmap string string)
    (keys : gset string) : option (list string) :=
  mapM (fun skill => jd_skill_map !! skill) (elements keys).

(** [None] stands for an exception (ZeroDivisionError or KeyError). *)
Definition calculate_match (resume_skills jd_skills : list string)
  : option MatchResult :=
  let resume_set := lower_set resume_skills in
  let jd_set := lower_set jd_skills in
  let matched_lower := jd_set ∩ resume_set in
  let missing_lower := jd_set ∖ resume_set in
  raw_score ←
    (if decide (length jd_skills = 0) then Some 0%float
     else q ← py_truediv (size matched_lower) (length jd_skills);
          Some (q * 100)%float);
  let jd_skill_map := lower_map jd_skills in
  matched ← restore_casing jd_skill_map matched_lower;
  missing ← restore_casing jd_skill_map missing_lower;
  Some {| score := py_round2 raw_score;
          matched_skills := sorted matched;
          missing_skills := sorted missing;
          total_jd_skills := length jd_skills;
          total_matched := length matched |}.

(** ** get_skill_suggestions *)

Definition skill_categories : list (string * list string) :=
  [ ("frontend", ["React"; "Angular"; "Vue.js"; "HTML"; "CSS"; "JavaScript";
                  "TypeScript"]);
    ("backend", ["Node.js"; "Python"; "Java"; "Django"; "Flask";
                 "Spring Boot"]);
    ("database", ["MongoDB"; "PostgreSQL"; "MySQL"; "Redis"]);
    ("cloud", ["AWS"; "Azure"; "Google Cloud"; "Docker"; "Kubernetes"]) ].

(** The inner loop: the name of the first category that holds the skill. *)
Fixpoint find_category (skill_lower : string)
    (categories : list (string * list string)) : option string :=
  match categories with
  | [] => None
  | (cat_name, cat_skills) :: rest =>
      if existsb (fun s => String.eqb skill_lower (lower s)) cat_skills
      then Some cat_name
      else find_category skill_lower rest
  end.

(** Truth value of [category]: [None] and the empty string are false. *)
Definition truthy (category : option string) : bool :=
  match category with
  | Some (String _ _) => true
  | _ => false
  end.

Definition suggest (skill : string) : string :=
  let skill_lower := lower skill in
  let category := find_category skill_lower skill_categories in
  if truthy category
  then "Learn " +:+ skill +:+ " through online courses or projects"
  else "Consider gaining experience with " +:+ skill.

Definition get_skill_suggestions (missing_skills : list string) : list string :=
  foldl (fun suggestions skill => suggestions ++ [suggest skill]) []
        missing_skills.

(** ** Notions used to state the properties *)

(** Some character of the text is a word character. *)
Fixpoint has_word_char (s : string) : bool :=
  match s with
  | EmptyString => false
  | String c s' => is_word c || has_word_char s'
  end.

(** The last character of [s], or [prev] when [s] is empty. *)
Fixpoint last_char (prev : option ascii) (s : string) : option ascii :=
  match s with
  | EmptyString => prev
  | String c s' => last_char (Some c) s'
  end.

(** The specification's reading of a word-bounded occurrence: [p] occurs in
    [t], and the occurrence is neither preceded nor followed by a word
    character. *)
Definition occurs_unflanked (p t : string) : Prop :=
  ∃ pre post : string,
    t = pre +:+ p +:+ post
    ∧ word_opt (last_char None pre) = false
    ∧ word_opt (head_char post) = false.

(** A scan that decides [occurs_unflanked]. *)
Fixpoint occurs_from (p s : string) (prev : option ascii) : bool :=
  (negb (word_opt prev)
   && match match_literal p s prev with
      | Some (_, rest) => negb (word_opt (head_char rest))
      | None => false
      end)
  || match s with
     | EmptyString => false
     | String c s' => occurs_from p s' (Some c)
     end.

(** The literal starts and ends with a word character. *)
Definition word_ended (p : string) : bool :=
  word_opt (head_char p) && word_opt (last_char None p).

(** Every dotted catalog entry other than those that start with the dot has
    a word-ended part before its first dot. *)
Definition base_ok (skill : string) : bool :=
  let base := before_dot (lower skill) in
  negb (contains_dot (lower skill))
  || String.eqb base "" || word_ended base.

(** A word-bounded token: a non-empty literal with an unflanked occurrence. *)
Definition word_bounded_token (p t : string) : Prop :=
  p ≠ "" ∧ occurs_unflanked p t.

(** [s] is the last spelling in [l] of its lower-case form. *)
Definition last_seen (l : list string) (s : string) : Prop :=
  ∃ l1 l2 : list string,
    l = l1 ++ s :: l2 ∧ Forall (fun s' => lower s' ≠ lower s) l2.

(** The score before rounding. *)
Definition raw_score (m n : nat) : float :=
  match n with
  | O => 0%float
  | S _ => (float_of_nat m / float_of_nat n * 100)%float
  end.

(** The specification's score, in exact arithmetic: the number of hundredths
    nearest to 100 * m / n, and 0 when n is 0.  A tie goes to the even
    hundredth in the first reading and upwards in the second. *)
Definition spec_hundredths_half_even (m n : nat) : Z :=
  match n with
  | O => 0%Z
  | S _ =>
      let a := (10000 * Z.of_nat m)%Z in
      let b := Z.of_nat n in
      let q := (a / b)%Z in
      match (2 * (a mod b) ?= b)%Z with
      | Lt => q
      | Gt => (q + 1)%Z
      | Eq => if Z.even q then q else (q + 1)%Z
      end
  end.

Definition spec_hundredths_half_up (m n : nat) : Z :=
  match n with
  | O => 0%Z
  | S _ => ((2 * 10000 * Z.of_nat m + Z.of_nat n) / (2 * Z.of_nat n))%Z
  end.

(** The binary64 value of a decimal with two digits after the point. *)
Definition float_of_hundredths (k : Z) : float :=
  (PrimFloat.of_uint63 (Uint63.of_Z k) / 100)%float.

(** The returned score compares equal to the specification's. *)
Definition score_agrees (m n : nat) : bool :=
  PrimFloat.eqb (py_round2 (raw_score m n))
                (float_of_hundredths (spec_hundredths_half_even m n)).

Definition scores_agree_below (bound : nat) : bool :=
  forallb (fun n => forallb (fun m => score_agrees m n) (seq 0 (S n)))
          (seq 0 bound).

(** The skills of the fixed categories, all categories together. *)
Definition fixed_category_skills : list string :=
  mjoin (snd <$> skill_categories).

(** The specification's reading: a case-insensitive member of one of the
    fixed categories. *)
Definition in_fixed_category (skill : string) : Prop :=
  lower skill ∈ lower <$> fixed_category_skills.

(** Entries with one lower-case form are one string. *)
Definition same_key_same_entry (skills : list string) : bool :=
  forallb (fun a =>
             forallb (fun b =>
                        implb (String.eqb (lower a) (lower b))
                              (String.eqb a b))
                     skills)
          skills.

(** The lookup sends the key of every entry back to the entry. *)
Definition lookup_keeps_entries (skills : list string) : bool :=
  forallb (fun skill =>
             bool_decide (lower_map skills !! lower skill = Some skill))
          skills.

(** ** The analysis route, the PDF helpers and the connection string *)


(** [s.split(sep)] for a separator of one character. *)
Fixpoint split_on (sep : ascii) (s : string) : list string :=
  match s with
  | EmptyString => [EmptyString]
  | String c s' =>
      if Ascii.eqb c sep then EmptyString :: split_on sep s'
      else match split_on sep s' with
           | [] => [String c EmptyString]
           | piece :: pieces => String c piece :: pieces
           end
  end.

(** [s.lstrip()], [s.rstrip()] and [s.strip()]. *)
Fixpoint lstrip (s : string) : string :=
  match s with
  | EmptyString => EmptyString
  | String c s' => if is_space c then lstrip s' else s
  end.

Fixpoint rstrip (s : string) : string :=
  match s with
  | EmptyString => EmptyString
  | String c s' =>
      match rstrip s' with
      | EmptyString => if is_space c then EmptyString else String c EmptyString
      | r => String c r
      end
  end.

Definition strip (s : string) : string := rstrip (lstrip s).

(** [analyze_match], a [resume_skills] given as one string:
    [[s.strip() for s in resume_skills.split(',') if s.strip()]]. *)
Definition skills_of_comma_string (resume_skills : string) : list string :=
  strip <$> filter (fun s => strip s ≠ "") (split_on "," resume_skills).

(** [re.sub(r' +', ' ', text)]. *)
Fixpoint collapse_spaces (s : string) : string :=
  match s with
  | EmptyString => EmptyString
  | String c s' =>
      if Ascii.eqb c " "
      then match s' with
           | String c' _ =>
               if Ascii.eqb c' " " then collapse_spaces s'
               else String c (collapse_spaces s')
           | EmptyString => String c EmptyString
           end
      else String c (collapse_spaces s')
  end.

(** [re.sub(r'\n{3,}', '\n\n', text)]; [run] counts the line breaks kept
    since the last other character. *)
Fixpoint collapse_newlines_from (run : nat) (s : string) : string :=
  match s with
  | EmptyString => EmptyString
  | String c s' =>
      if Ascii.eqb c "010"
      then if (run <? 2)%nat then String c (collapse_newlines_from (S run) s')
           else collapse_newlines_from run s'
      else String c (collapse_newlines_from 0 s')
  end.

Definition collapse_newlines (s : string) : string :=
  collapse_newlines_from 0 s.

(** [sep.join(l)]. *)
Fixpoint join_with (sep : string) (l : list string) : string :=
  match l with
  | [] => EmptyString
  | [x] => x
  | x :: l' => x +:+ sep +:+ join_with sep l'
  end.

(** ['\n'.join([line.strip() for line in text.split('\n')])]. *)
Definition strip_lines (s : string) : string :=
  join_with (String "010" EmptyString) (strip <$> split_on "010" s).

(** The state of the scan for [(\w+)-\s*\n\s*(\w+)]. *)
Inductive hyphen_state : Type :=
  | HOutside
  | HWord (w1 : string)
  | HBreak (w1 ws : string) (nl : bool)
  | HSecond.

(** [re.sub(r'(\w+)-\s*\n\s*(\w+)', r'\1\2', s)].  A match is a whole run
    of word characters, a hyphen, a whole run of white space that holds a
    line break, and the whole run of word characters after it; [HWord] holds
    the first run, [HBreak] the first run, the white space after the hyphen
    and whether a line break was seen, [HSecond] copies the second run. *)
Fixpoint dehyphenate_from (st : hyphen_state) (s : string) : string :=
  match s with
  | EmptyString =>
      match st with
      | HOutside | HSecond => EmptyString
      | HWord w1 => w1
      | HBreak w1 ws _ => w1 +:+ "-" +:+ ws
      end
  | String c s' =>
      match st with
      | HOutside =>
          if is_word c then dehyphenate_from (HWord (String c EmptyString)) s'
          else String c (dehyphenate_from HOutside s')
      | HWord w1 =>
          if is_word c
          then dehyphenate_from (HWord (w1 +:+ String c EmptyString)) s'
          else if Ascii.eqb c "-" then dehyphenate_from (HBreak w1 "" false) s'
          else w1 +:+ String c (dehyphenate_from HOutside s')
      | HBreak w1 ws nl =>
          if is_space c
          then dehyphenate_from
                 (HBreak w1 (ws +:+ String c EmptyString)
                         (nl || Ascii.eqb c "010")) s'
          else if is_word c
          then if nl then w1 +:+ String c (dehyphenate_from HSecond s')
               else w1 +:+ "-" +:+ ws
                    +:+ dehyphenate_from (HWord (String c EmptyString)) s'
          else w1 +:+ "-" +:+ ws +:+ String c (dehyphenate_from HOutside s')
      | HSecond =>
          if is_word c then String c (dehyphenate_from HSecond s')
          else String c (dehyphenate_from HOutside s')
      end
  end.

Definition dehyphenate (s : string) : string := dehyphenate_from HOutside s.

(** The class [[.,;:!?]]. *)
Definition is_punct (c : ascii) : bool :=
  Ascii.eqb c "." || Ascii.eqb c "," || Ascii.eqb c ";"
  || Ascii.eqb c ":" || Ascii.eqb c "!" || Ascii.eqb c "?".

(** The class [[A-Z]]. *)
Definition is_upper (c : ascii) : bool := in_range 65 90 c.

(** [re.sub(r'\s+([.,;:!?])', r'\1', s)]; [pending] is the run of white
    space read and not yet written. *)
Fixpoint unspace_punct_from (pending s : string) : string :=
  match s with
  | EmptyString => pending
  | String c s' =>
      if is_space c
      then unspace_punct_from (pending +:+ String c EmptyString) s'
      else if is_punct c then String c (unspace_punct_from "" s')
      else pending +:+ String c (unspace_punct_from "" s')
  end.

Definition unspace_punct (s : string) : string := unspace_punct_from "" s.

(** [re.sub(r'([.,;:!?])\s*([A-Z])', r'\1 \2', s)]; the state is [Some ws]
    after a punctuation mark and the white space [ws], not yet written. *)
Fixpoint space_after_punct_from (st : option string) (s : string) : string :=
  match s with
  | EmptyString => default EmptyString st
  | String c s' =>
      match st with
      | Some ws =>
          if is_space c
          then space_after_punct_from (Some (ws +:+ String c EmptyString)) s'
          else if is_upper c
          then String " " (String c (space_after_punct_from None s'))
          else if is_punct c
          then ws +:+ String c (space_after_punct_from (Some "") s')
          else ws +:+ String c (space_after_punct_from None s')
      | None =>
          if is_punct c then String c (space_after_punct_from (Some "") s')
          else String c (space_after_punct_from None s')
      end
  end.

Definition space_after_punct (s : string) : string :=
  space_after_punct_from None s.

Definition clean_extracted_text (text : string) : string :=
  match text with
  | EmptyString => EmptyString
  | _ =>
      let text := collapse_spaces text in
      let text := collapse_newlines text in
      let text := strip_lines text in
      let text := strip text in
      let text := dehyphenate text in
      let text := unspace_punct text in
      space_after_punct text
  end.

(** What one page adds to [text_content]: [page_text.strip() + "\n\n"] when
    [page_text] and [page_text.strip()] are true, nothing otherwise.
    [page_text] is what the extraction strategies leave for the page,
    [None] for Python's [None]. *)
Definition page_block (page_text : option string) : string :=
  match page_text with
  | Some t =>
      match strip t with
      | EmptyString => EmptyString
      | stripped => stripped +:+ String "010" (String "010" EmptyString)
      end
  | None => EmptyString
  end.

(** The end of [extract_text_from_pdf]: the page texts are gathered, a
    gathering without visible text raises the ValueError ([None] here), any
    other is cleaned and returned. *)
Definition text_of_pages (page_texts : list (option string)) : option string :=
  let text_content :=
    foldl (fun text_content page_text => text_content +:+ page_block page_text)
          EmptyString page_texts in
  match strip text_content with
  | EmptyString => None
  | _ => Some (clean_extracted_text text_content)
  end.



(** [s.endswith(suffix)]. *)
Definition ends_with (suffix s : string) : bool :=
  (String.length suffix <=? String.length s)%nat
  && String.eqb (substring (String.length s - String.length suffix)
                           (String.length suffix) s)
                suffix.



(** [needle in s]. *)
Fixpoint contains (needle s : string) : bool :=
  String.prefix needle s
  || match s with
     | EmptyString => false
     | String _ s' => contains needle s'
     end.

(** [s.rstrip(a)] for one character [a]. *)
Fixpoint rstrip_char (a : ascii) (s : string) : string :=
  match s with
  | EmptyString => EmptyString
  | String c s' =>
      match rstrip_char a s' with
      | EmptyString => if Ascii.eqb c a then EmptyString else String c EmptyString
      | r => String c r
      end
  end.

(** [AnalysisModel.__init__]: the string handed to [MongoClient], from
    [Config.MONGO_URI]. *)
Definition client_uri (mongo_uri : string) : string :=
  let mongo_uri :=
    if negb (ends_with "/" mongo_uri) then mongo_uri +:+ "/" else mongo_uri in
  if contains "mongodb+srv://" mongo_uri || contains "mongodb://" mongo_uri
  then if negb (contains "?" mongo_uri)
       then rstrip_char "/" mongo_uri +:+ "/?retryWrites=true&w=majority"
       else mongo_uri
  else mongo_uri.

(** ** Notions used to state the further properties *)

(** Some character of the literal is replaced by the normalisation. *)
Fixpoint has_dropped_char (s : string) : bool :=
  match s with
  | EmptyString => false
  | String c s' => negb (is_kept c) || has_dropped_char s'
  end.

(** Every character of the text is kept by the normalisation. *)
Fixpoint all_kept (s : string) : bool :=
  match s with
  | EmptyString => true
  | String c s' => is_kept c && all_kept s'
  end.

(** Full and empty scores for every list length the catalog allows. *)
Definition end_scores_upto (bound : nat) : bool :=
  forallb (fun n =>
             PrimFloat.eqb (py_round2 (raw_score (S n) (S n))) 100
             && PrimFloat.eqb (py_round2 (raw_score 0 n)) 0)
          (seq 0 bound).

Definition space_opt (o : option ascii) : bool :=
  match o with
  | Some c => is_space c
  | None => false
  end.

Definition punct_opt (o : option ascii) : bool :=
  match o with
  | Some c => is_punct c
  | None => false
  end.

Definition upper_opt (o : option ascii) : bool :=
  match o with
  | Some c => is_upper c
  | None => false
  end.

(** Every character of the text is white space. *)
Fixpoint all_space (s : string) : bool :=
  match s with
  | EmptyString => true
  | String c s' => is_space c && all_space s'
  end.

(** The character occurs in the text. *)
Fixpoint has_char (a : ascii) (s : string) : bool :=
  match s with
  | EmptyString => false
  | String c s' => Ascii.eqb c a || has_char a s'
  end.

(** Somewhere in the text, or between [prev] and its first character, a
    white-space character stands right before a punctuation mark. *)
Fixpoint space_before_punct (prev : option ascii) (s : string) : bool :=
  match s with
  | EmptyString => false
  | String c s' =>
      (space_opt prev && is_punct c) || space_before_punct (Some c) s'
  end.

(** Somewhere in the text, or between [prev] and its first character, a
    punctuation mark stands right before a letter A-Z. *)
Fixpoint punct_before_upper (prev : option ascii) (s : string) : bool :=
  match s with
  | EmptyString => false
  | String c s' =>
      (punct_opt prev && is_upper c) || punct_before_upper (Some c) s'
  end.

(** The text neither starts nor ends with white space. *)
Definition trimmed (s : string) : Prop :=
  space_opt (head_char s) = false ∧ space_opt (last_char None s) = false.

(** A skill string as [skills_of_comma_string] returns them: not empty,
    without white space at either end, without a comma. *)
Definition clean_skill (x : string) : Prop :=
  x ≠ "" ∧ trimmed x ∧ has_char "," x = false.

(** What a state of the scan has read and not yet written. *)
Definition hyphen_pending (st : hyphen_state) : string :=
  match st with
  | HOutside | HSecond => EmptyString
  | HWord w1 => w1
  | HBreak w1 ws _ => w1 +:+ "-" +:+ ws
  end.

(** The part of it that every continuation writes first. *)
Definition hyphen_prefix (st : hyphen_state) : string :=
  match st with
  | HOutside | HSecond => EmptyString
  | HWord w1 | HBreak w1 _ _ => w1
  end.

(** The text after the first four steps. *)
Definition stripped_text (text : string) : string :=
  strip (strip_lines (collapse_newlines (collapse_spaces text))).

(** The page left no visible text. *)
Definition page_blank (page_text : option string) : bool :=
  match page_text with
  | Some t => all_space t
  | None => true
  end.


(** * Properties *)

(** ** Characters and texts *)

Lemma is_word_lower_char (c : ascii) : is_word (lower_char c) = is_word c.
Proof. by destruct c as [[] [] [] [] [] [] [] []]. Qed.

Lemma is_kept_of_word (c : ascii) : is_word c = true → is_kept c = true.
Proof. unfold is_kept. by intros ->. Qed.

Lemma is_word_normalized (c : ascii) :
  is_word (if is_kept c then c else " "%char) = is_word c.
Proof.
  destruct (is_kept c) eqn:Hk; [done|].
  destruct (is_word c) eqn:Hw; [|done].
  by rewrite (is_kept_of_word c Hw) in Hk.
Qed.

Lemma has_word_char_lower (s : string) :
  has_word_char (lower s) = has_word_char s.
Proof.
  induction s as [|c s IH]; [done|].
  cbn [lower has_word_char]. by rewrite is_word_lower_char, IH.
Qed.

Lemma has_word_char_normalize (s : string) :
  has_word_char (normalize s) = has_word_char s.
Proof.
  induction s as [|c s IH]; [done|].
  cbn [normalize has_word_char]. by rewrite is_word_normalized, IH.
Qed.

Lemma lower_nonempty (s : string) : s ≠ "" → lower s ≠ "".
Proof. by destruct s. Qed.

Lemma normalize_nonempty (s : string) : s ≠ "" → normalize s ≠ "".
Proof. by destruct s. Qed.

(** ** Sets, sorting *)

Lemma elem_of_sorted (x : string) (l : list string) : x ∈ sorted l ↔ x ∈ l.
Proof. unfold sorted. by rewrite merge_sort_Permutation. Qed.

Lemma sorted_Sorted (l : list string) : Sorted String.le (sorted l).
Proof. apply (Sorted_merge_sort String.le). Qed.

Lemma sorted_StronglySorted (l : list string) :
  StronglySorted String.le (sorted l).
Proof. apply (StronglySorted_merge_sort String.le). Qed.

Lemma sorted_NoDup (l : list string) : NoDup l → NoDup (sorted l).
Proof. unfold sorted. by rewrite merge_sort_Permutation. Qed.

(** Sorting does not depend on the order in which a set is listed. *)
Lemma sorted_Permutation (l1 l2 : list string) :
  l1 ≡ₚ l2 → sorted l1 = sorted l2.
Proof.
  intros Hp. apply (Sorted_unique String.le); try apply sorted_Sorted.
  unfold sorted. by rewrite !merge_sort_Permutation.
Qed.

Lemma elem_of_collect_found (tn : string) (skills : list string) (x : string) :
  x ∈ collect_found tn skills ↔ x ∈ skills ∧ skill_found tn x = true.
Proof.
  unfold collect_found.
  induction skills as [|s skills IH] using rev_ind.
  - cbn. set_solver.
  - rewrite foldl_app. cbn [foldl].
    destruct (skill_found tn s) eqn:Hs.
    + rewrite elem_of_union, elem_of_singleton, IH, elem_of_app,
        list_elem_of_singleton.
      intuition (subst; congruence).
    + rewrite IH, elem_of_app, list_elem_of_singleton.
      intuition (subst; congruence).
Qed.

(** Membership in the result of [extract_skills]. *)
Lemma elem_of_extract_skills (text skill : string) :
  skill ∈ extract_skills (Some text) ↔
    text ≠ "" ∧ skill ∈ SKILLS_DATABASE
    ∧ skill_found (normalize (lower text)) skill = true.
Proof.
  destruct text as [|c t].
  - cbn. split; [by intros ?%elem_of_nil | by intros [? _]].
  - unfold extract_skills.
    rewrite elem_of_sorted, elem_of_elements, elem_of_collect_found.
    intuition congruence.
Qed.

(** ** Word-bounded search *)

Lemma app_nil (t : string) : "" +:+ t = t.
Proof. reflexivity. Qed.

Lemma app_cons (c : ascii) (s t : string) :
  String c s +:+ t = String c (s +:+ t).
Proof. reflexivity. Qed.

Lemma last_char_cons (prev : option ascii) (c : ascii) (s : string) :
  last_char prev (String c s) = last_char None (String c s).
Proof. reflexivity. Qed.

Lemma match_literal_Some (p s : string) (prev l : option ascii) (rest : string) :
  match_literal p s prev = Some (l, rest) ↔
    s = p +:+ rest ∧ l = last_char prev p.
Proof.
  revert s prev. induction p as [|a p IH]; intros s prev.
  - cbn [match_literal last_char]. rewrite app_nil. naive_solver.
  - cbn [match_literal last_char]. rewrite app_cons.
    destruct s as [|b s]; [naive_solver|].
    destruct (Ascii.eqb_spec a b) as [->|Hne].
    + rewrite IH. naive_solver.
    + naive_solver.
Qed.

Lemma match_literal_app (p rest : string) (prev : option ascii) :
  match_literal p (p +:+ rest) prev = Some (last_char prev p, rest).
Proof. by apply match_literal_Some. Qed.

Lemma occurs_from_spec (p s : string) (prev : option ascii) :
  occurs_from p s prev = true ↔
    ∃ pre post : string,
      s = pre +:+ p +:+ post
      ∧ word_opt (last_char prev pre) = false
      ∧ word_opt (head_char post) = false.
Proof.
  revert prev. induction s as [|c s IH]; intros prev.
  - cbn [occurs_from]. rewrite orb_false_r, andb_true_iff, negb_true_iff.
    split.
    + intros [Hp Hm].
      destruct (match_literal p "" prev) as [[l rest]|] eqn:Hl; [|done].
      apply match_literal_Some in Hl as [Hs _].
      exists "", rest. by apply negb_true_iff in Hm.
    + intros ([|c pre] & post & Hs & Hp & Hq); [|done].
      rewrite app_nil in Hs. cbn [last_char] in Hp.
      split; [done|]. rewrite Hs, match_literal_app. by rewrite Hq.
  - cbn [occurs_from]. rewrite orb_true_iff, andb_true_iff, negb_true_iff, IH.
    split.
    + intros [[Hp Hm]|(pre & post & Hs & Hp & Hq)].
      * destruct (match_literal p (String c s) prev) as [[l rest]|] eqn:Hl;
          [|done].
        apply match_literal_Some in Hl as [Hs _].
        exists "", rest. by apply negb_true_iff in Hm.
      * exists (String c pre), post. rewrite app_cons. by rewrite Hs.
    + intros ([|c' pre] & post & Hs & Hp & Hq).
      * left. rewrite app_nil in Hs. cbn [last_char] in Hp.
        split; [done|]. rewrite Hs, match_literal_app. by rewrite Hq.
      * right. rewrite app_cons in Hs. injection Hs as -> ->.
        by exists pre, post.
Qed.

Lemma occurs_unflanked_decide (p t : string) :
  occurs_unflanked p t ↔ occurs_from p t None = true.
Proof. symmetry. apply occurs_from_spec. Qed.

(** For a literal that starts and ends with a word character, the pattern
    [\b p \b] finds exactly the occurrences that no word character flanks. *)
Lemma search_from_word_ended (p s : string) (prev : option ascii) :
  word_opt (head_char p) = true →
  word_opt (last_char None p) = true →
  search_from p s prev = occurs_from p s prev.
Proof.
  intros Hh Hl.
  assert (Hhere : ∀ s prev,
    match_here p s prev
    = negb (word_opt prev)
      && match match_literal p s prev with
         | Some (_, rest) => negb (word_opt (head_char rest))
         | None => false
         end).
  { clear s prev. intros s prev. unfold match_here.
    destruct (match_literal p s prev) as [[l rest]|] eqn:Hm.
    - apply match_literal_Some in Hm as [-> ->].
      destruct p as [|a p]; [done|].
      rewrite last_char_cons, app_cons. cbn [head_char].
      unfold at_boundary. rewrite Hl. cbn [head_char] in Hh. rewrite Hh.
      by rewrite xorb_true_r.
    - by rewrite !andb_false_r. }
  revert prev. induction s as [|c s IH]; intros prev;
    cbn [search_from occurs_from]; rewrite Hhere; [done|].
  by rewrite IH.
Qed.

Lemma re_search_word_unflanked (p t : string) :
  word_opt (head_char p) = true →
  word_opt (last_char None p) = true →
  re_search_word p t = true ↔ occurs_unflanked p t.
Proof.
  intros Hh Hl. unfold re_search_word.
  rewrite (search_from_word_ended p t None Hh Hl).
  symmetry. apply occurs_unflanked_decide.
Qed.

(** The empty literal: [\b\b] matches wherever the text has a word
    character. *)
Lemma search_from_empty (s : string) (prev : option ascii) :
  word_opt prev = false → has_word_char s = true →
  search_from "" s prev = true.
Proof.
  revert prev. induction s as [|c s IH]; intros prev Hp Hw; [done|].
  cbn [search_from has_word_char] in *.
  unfold match_here. cbn [match_literal head_char].
  unfold at_boundary. rewrite Hp. cbn [word_opt xorb].
  destruct (is_word c) eqn:Hc; [done|].
  cbn [andb orb]. apply IH; [by cbn; rewrite Hc | done].
Qed.

Lemma search_empty_text (p : string) : re_search_word p "" = false.
Proof. reflexivity. Qed.

(** ** Facts about the catalog *)

Lemma word_ended_inv (p : string) :
  word_ended p = true →
  word_opt (head_char p) = true ∧ word_opt (last_char None p) = true.
Proof. unfold word_ended. by intros ?%andb_true_iff. Qed.

(** A check that holds of every element of a list, from its evaluation. *)
Lemma Forall_of_forallb {A} (f : A → bool) (l : list A) :
  forallb f l = true → Forall (fun x => f x = true) l.
Proof.
  intros H. apply Forall_forall. intros x Hx%list_elem_of_In.
  revert x Hx. by apply forallb_forall.
Qed.

Lemma catalog_bases : Forall (fun skill => base_ok skill = true) SKILLS_DATABASE.
Proof. apply Forall_of_forallb. by vm_compute. Qed.

Lemma catalog_base_word_ended (skill : string) :
  skill ∈ SKILLS_DATABASE →
  contains_dot (lower skill) = true →
  before_dot (lower skill) ≠ "" →
  word_ended (before_dot (lower skill)) = true.
Proof.
  intros Hin Hdot Hne.
  pose proof (proj1 (Forall_forall _ _) catalog_bases skill Hin) as Hok.
  unfold base_ok in Hok. rewrite Hdot in Hok. cbn [negb orb] in Hok.
  apply orb_true_iff in Hok as [Heq|Hw]; [|done].
  by apply String.eqb_eq in Heq.
Qed.

Lemma occurs_unflanked_empty_text (p : string) :
  p ≠ "" → ¬ occurs_unflanked p "".
Proof.
  intros Hne. rewrite occurs_unflanked_decide. by destruct p.
Qed.

Lemma skill_found_by_base (tn skill : string) :
  contains_dot (lower skill) = true →
  re_search_word (before_dot (lower skill)) tn = true →
  skill_found tn skill = true.
Proof.
  intros Hdot Hbase. unfold skill_found.
  destruct (re_search_word (lower skill) tn); [done|].
  by rewrite Hdot.
Qed.

Lemma skill_found_undotted (tn skill : string) :
  contains_dot (lower skill) = false →
  skill_found tn skill = re_search_word (lower skill) tn.
Proof.
  intros Hdot. unfold skill_found.
  destruct (re_search_word (lower skill) tn); [done|].
  by rewrite Hdot.
Qed.

Lemma search_nonempty_text (p text : string) :
  re_search_word p (normalize (lower text)) = true → text ≠ "".
Proof. by destruct text. Qed.

(** ** extract_skills: the claims *)

(** Evaluates a membership test on a concrete list. *)
Ltac eval_elem :=
  match goal with
  | |- ?P => apply (bool_decide_unpack P); vm_compute; exact I
  end.

(** C2.  The text "I know C++ well" holds the catalog entry "C++" as a token
    of its own, and [extract_skills] does not report it: the pattern ends in
    [\b] after a [+], which wants a word character to follow.  The same
    holds of "C#". *)
Theorem cpp_token_not_reported :
  extract_skills (Some "I know C++ well") = [".NET"; "C"]
  ∧ extract_skills (Some "I write C# daily") = [".NET"; "C"]
  ∧ "C++" ∈ SKILLS_DATABASE ∧ "C#" ∈ SKILLS_DATABASE.
Proof.
  split; [by vm_compute|]. split; [by vm_compute|].
  split; eval_elem.
Qed.

(** C3.  Word-boundary correctness holds on the three examples of the
    claim: "Java" is not reported for "I love JavaScript", and for "I use
    Java daily" "Java" is reported and "JavaScript" is not.  It fails for an
    entry that ends in a character which is not a word character: "C++" is
    reported for "C++11", where its only occurrence is followed by the word
    character "1" (its pattern ends in [\b] after a [+], which holds exactly
    when a word character follows), and it is not reported for "I know C++
    well", where it occurs with no word character on either side. *)
Theorem word_boundary_after_plus :
  "C++" ∈ SKILLS_DATABASE
  ∧ extract_skills (Some "C++11") = [".NET"; "C"; "C++"]
  ∧ re_search_word (lower "C++") (normalize (lower "C++11")) = true
  ∧ ¬ occurs_unflanked (lower "C++") (normalize (lower "C++11"))
  ∧ occurs_unflanked (lower "C++") (normalize (lower "I know C++ well"))
  ∧ re_search_word (lower "C++") (normalize (lower "I know C++ well")) = false
  ∧ "Java" ∉ extract_skills (Some "I love JavaScript")
  ∧ "Java" ∈ extract_skills (Some "I use Java daily")
  ∧ "JavaScript" ∉ extract_skills (Some "I use Java daily").
Proof.
  split; [eval_elem|]. split; [vm_compute; reflexivity|].
  split; [vm_compute; reflexivity|].
  split; [rewrite occurs_unflanked_decide; by vm_compute|].
  split; [apply occurs_unflanked_decide; vm_compute; reflexivity|].
  split; [vm_compute; reflexivity|].
  split; [eval_elem|]. split; eval_elem.
Qed.

(** Where the word-boundary test is exact.  For a catalog entry whose
    lower-case form starts and ends with a word character, the exact-form
    pattern matches exactly when the
    form occurs neither preceded nor followed by a word character; when the
    entry has no dot this decides whether it is reported.  All entries but
    "C++", "C#" and ".NET" are of that kind.  "Java" is not reported for
    "I love JavaScript"; for "I use Java daily" "Java" is reported and
    "JavaScript" is not. *)
Theorem word_boundary_correct :
  (∀ skill t : string,
     skill ∈ SKILLS_DATABASE → word_ended (lower skill) = true →
     re_search_word (lower skill) t = true ↔ occurs_unflanked (lower skill) t)
  ∧ (∀ skill text : string,
       skill ∈ SKILLS_DATABASE → word_ended (lower skill) = true →
       contains_dot (lower skill) = false →
       skill ∈ extract_skills (Some text)
       ↔ occurs_unflanked (lower skill) (normalize (lower text)))
  ∧ filter (fun skill => word_ended (lower skill) = false) SKILLS_DATABASE
    = ["C++"; "C#"; ".NET"]
  ∧ "Java" ∉ extract_skills (Some "I love JavaScript")
  ∧ "Java" ∈ extract_skills (Some "I use Java daily")
  ∧ "JavaScript" ∉ extract_skills (Some "I use Java daily").
Proof.
  split; [|split; [|split; [|split; [|split]]]].
  - intros skill t _ [Hh Hl]%word_ended_inv.
    by apply re_search_word_unflanked.
  - intros skill text Hin Hw Hdot.
    pose proof (word_ended_inv _ Hw) as [Hh Hl].
    rewrite elem_of_extract_skills, (skill_found_undotted _ _ Hdot),
      (re_search_word_unflanked _ _ Hh Hl).
    split; [by intros (_ & _ & ?)|]. intros Hocc.
    split; [|done]. intros ->.
    apply (occurs_unflanked_empty_text (lower skill)); [|done].
    by destruct (lower skill).
  - by vm_compute.
  - eval_elem.
  - eval_elem.
  - eval_elem.
Qed.

Lemma word_boundary_correct_witness :
  "Java" ∈ extract_skills (Some "I use Java daily")
  ↔ occurs_unflanked (lower "Java") (normalize (lower "I use Java daily")).
Proof.
  apply (proj1 (proj2 word_boundary_correct) "Java" "I use Java daily").
  - eval_elem.
  - by vm_compute.
  - by vm_compute.
Defined.

(** C8.  A catalog entry with a dot is reported as soon as the part before
    its first dot passes the word-boundary test on the normalised text, in
    particular when that part occurs there as a word-bounded token, whether
    or not the dotted form occurs; "I use React for frontend" yields
    "React.js" and "React". *)
Theorem dotted_skill_base_token :
  (∀ skill text : string,
     skill ∈ SKILLS_DATABASE → contains_dot (lower skill) = true →
     re_search_word (before_dot (lower skill)) (normalize (lower text)) = true →
     skill ∈ extract_skills (Some text))
  ∧ (∀ skill text : string,
       skill ∈ SKILLS_DATABASE → contains_dot (lower skill) = true →
       word_bounded_token (before_dot (lower skill)) (normalize (lower text)) →
       skill ∈ extract_skills (Some text))
  ∧ extract_skills (Some "I use React for frontend")
    = [".NET"; "React"; "React.js"]
  ∧ re_search_word (lower "React.js")
      (normalize (lower "I use React for frontend")) = false.
Proof.
  assert (Hcode : ∀ skill text : string,
     skill ∈ SKILLS_DATABASE → contains_dot (lower skill) = true →
     re_search_word (before_dot (lower skill)) (normalize (lower text)) = true →
     skill ∈ extract_skills (Some text)).
  { intros skill text Hin Hdot Hbase. apply elem_of_extract_skills.
    split; [by eapply search_nonempty_text|].
    split; [done|]. by apply skill_found_by_base. }
  split; [done|]. split; [|split; by vm_compute].
  intros skill text Hin Hdot [Hne Hocc]. apply Hcode; [done..|].
  pose proof (catalog_base_word_ended skill Hin Hdot Hne) as Hw.
  apply word_ended_inv in Hw as [Hh Hl].
  by apply re_search_word_unflanked.
Qed.

Lemma dotted_skill_base_token_witness :
  "Node.js" ∈ extract_skills (Some "Built services in Node and Go").
Proof.
  apply (proj1 (proj2 dotted_skill_base_token)
           "Node.js" "Built services in Node and Go").
  - eval_elem.
  - by vm_compute.
  - split; [done|]. apply occurs_unflanked_decide. by vm_compute.
Defined.

(** C10.  The part of ".NET" before its first dot is empty, so its fallback
    pattern is a bare word-boundary test: every text with a word character
    yields ".NET". *)
Theorem dotnet_always_reported (text : string) :
  has_word_char text = true → ".NET" ∈ extract_skills (Some text).
Proof.
  intros Hw. apply elem_of_extract_skills.
  split; [by destruct text|]. split; [eval_elem|].
  apply skill_found_by_base; [by vm_compute|].
  change (before_dot (lower ".NET")) with "".
  apply search_from_empty; [done|].
  by rewrite has_word_char_normalize, has_word_char_lower.
Qed.

Lemma dotnet_always_reported_witness :
  ".NET" ∈ extract_skills (Some "x").
Proof. apply (dotnet_always_reported "x"). by vm_compute. Defined.

(** ** calculate_match: structure of the result *)

Lemma lower_map_snoc (l : list string) (s : string) :
  lower_map (l ++ [s]) = <[lower s := s]> (lower_map l).
Proof. unfold lower_map. by rewrite foldl_app. Qed.

Lemma dom_lower_map (l : list string) : dom (lower_map l) = lower_set l.
Proof.
  induction l as [|s l IH] using rev_ind; [done|].
  rewrite lower_map_snoc, dom_insert_L, IH. unfold lower_set.
  rewrite fmap_app, list_to_set_app_L. cbn. set_solver.
Qed.

Lemma lower_map_lookup_Some (l : list string) (k s : string) :
  lower_map l !! k = Some s → lower s = k ∧ last_seen l s.
Proof.
  revert s. induction l as [|x l IH] using rev_ind; intros s; [done|].
  rewrite lower_map_snoc. destruct (decide (lower x = k)) as [<-|Hne].
  - rewrite lookup_insert_eq. intros [= ->]. split; [done|].
    exists l, []. by split.
  - rewrite lookup_insert_ne by done. intros [<- (l1 & l2 & -> & Hl2)]%IH.
    split; [done|]. exists l1, (l2 ++ [x]). split.
    + by rewrite <- app_assoc.
    + apply Forall_app. split; [done|]. by apply Forall_singleton.
Qed.

Lemma restore_casing_total (m : gmap string string) (keys : gset string) :
  keys ⊆ dom m →
  ∃ l, restore_casing m keys = Some l
       ∧ Forall2 (fun k s => m !! k = Some s) (elements keys) l.
Proof.
  intros Hsub.
  assert (is_Some (restore_casing m keys)) as [l Hl].
  { apply mapM_is_Some, Forall_forall. intros k Hk%elem_of_elements.
    by apply elem_of_dom, Hsub. }
  exists l. split; [done|]. by apply mapM_Some.
Qed.

Lemma restored_lower (jd : list string) (ks l : list string) :
  Forall2 (fun k s => lower_map jd !! k = Some s) ks l → lower <$> l = ks.
Proof.
  induction 1 as [|k s ks l Hk _ IH]; [done|].
  cbn. apply lower_map_lookup_Some in Hk as [-> _]. by rewrite IH.
Qed.

Lemma restored_last_seen (jd : list string) (ks l : list string) :
  Forall2 (fun k s => lower_map jd !! k = Some s) ks l →
  Forall (last_seen jd) l.
Proof.
  induction 1 as [|k s ks l Hk _ IH]; constructor; [|done].
  by apply lower_map_lookup_Some in Hk as [_ ?].
Qed.

(** [calculate_match] raises nothing; its result, in terms of the two
    lower-cased sets. *)
Lemma calculate_match_Some (resume jd : list string) :
  ∃ matched missing : list string,
    calculate_match resume jd
    = Some (mkMatchResult
              (py_round2 (raw_score (size (lower_set jd ∩ lower_set resume))
                                    (length jd)))
              (sorted matched) (sorted missing) (length jd) (length matched))
    ∧ lower <$> matched = elements (lower_set jd ∩ lower_set resume)
    ∧ lower <$> missing = elements (lower_set jd ∖ lower_set resume)
    ∧ Forall (last_seen jd) matched
    ∧ Forall (last_seen jd) missing.
Proof.
  destruct (restore_casing_total (lower_map jd)
              (lower_set jd ∩ lower_set resume)) as (matched & Hm & Hm2).
  { rewrite dom_lower_map. set_solver. }
  destruct (restore_casing_total (lower_map jd)
              (lower_set jd ∖ lower_set resume)) as (missing & Hs & Hs2).
  { rewrite dom_lower_map. set_solver. }
  exists matched, missing. split.
  - unfold calculate_match. cbn zeta. rewrite Hm, Hs.
    destruct jd as [|s jd]; [done|].
    by destruct (decide (length (s :: jd) = 0)).
  - split; [by eapply restored_lower|]. split; [by eapply restored_lower|].
    split; by eapply restored_last_seen.
Qed.

Lemma elem_of_lower_set (x : string) (l : list string) :
  x ∈ l → lower x ∈ lower_set l.
Proof.
  intros Hx. unfold lower_set.
  apply elem_of_list_to_set, list_elem_of_fmap. by exists x.
Qed.

Lemma lower_set_sorted (l : list string) : lower_set (sorted l) = lower_set l.
Proof.
  unfold lower_set. apply set_eq. intros x.
  rewrite !elem_of_list_to_set, !list_elem_of_fmap.
  by setoid_rewrite elem_of_sorted.
Qed.

Lemma lower_set_restored (l : list string) (X : gset string) :
  lower <$> l = elements X → lower_set l = X.
Proof. unfold lower_set. intros ->. apply list_to_set_elements_L. Qed.

Lemma restored_NoDup (l : list string) (X : gset string) :
  lower <$> l = elements X → NoDup l.
Proof.
  intros Hl. apply (NoDup_fmap_1 lower). rewrite Hl. apply NoDup_elements.
Qed.

Lemma restored_length (l : list string) (X : gset string) :
  lower <$> l = elements X → length l = size X.
Proof. intros Hl. by rewrite <- (length_fmap lower), Hl. Qed.

(** ** calculate_match: the claims *)

(** C4, as stated, fails: the output lists carry the spelling of
    [jd_skills], so their union is not the set of lower-cased JD skills. *)
Lemma partition_counterexample :
  ∃ r : MatchResult,
    calculate_match [] ["Python"] = Some r
    ∧ matched_skills r = [] ∧ missing_skills r = ["Python"]
    ∧ (list_to_set (matched_skills r) ∪ list_to_set (missing_skills r)
       : gset string) ≠ lower_set ["Python"].
Proof.
  eexists. split; [by vm_compute|]. cbn [matched_skills missing_skills].
  split; [done|]. split; [done|]. eval_elem.
Qed.

(** C4, amended.  Lower-cased, the two output lists are the intersection and
    the difference of the lower-cased JD set with the lower-cased resume set:
    their union is the lower-cased JD set and they share nothing.  As
    returned (in the spelling of [jd_skills]) they share no string either,
    and every string of theirs is an element of [jd_skills]. *)
Theorem matched_missing_partition (resume_skills jd_skills : list string) :
  ∃ r : MatchResult,
    calculate_match resume_skills jd_skills = Some r
    ∧ lower_set (matched_skills r)
      = lower_set jd_skills ∩ lower_set resume_skills
    ∧ lower_set (missing_skills r)
      = lower_set jd_skills ∖ lower_set resume_skills
    ∧ lower_set (matched_skills r) ∪ lower_set (missing_skills r)
      = lower_set jd_skills
    ∧ lower_set (matched_skills r) ∩ lower_set (missing_skills r) = ∅
    ∧ (list_to_set (matched_skills r) ∩ list_to_set (missing_skills r)
       : gset string) = ∅
    ∧ (list_to_set (matched_skills r) ∪ list_to_set (missing_skills r)
       : gset string) ⊆ list_to_set jd_skills.
Proof.
  destruct (calculate_match_Some resume_skills jd_skills)
    as (matched & missing & -> & Hm & Hs & Lm & Ls).
  eexists. split; [done|]. cbn [matched_skills missing_skills].
  rewrite !lower_set_sorted.
  rewrite (lower_set_restored _ _ Hm), (lower_set_restored _ _ Hs).
  split; [done|]. split; [done|].
  split.
  { apply set_eq. intros x.
    destruct (decide (x ∈ lower_set resume_skills)); set_solver. }
  split; [set_solver|].
  assert (Hin1 : ∀ x, x ∈ sorted matched → lower x ∈ lower_set resume_skills).
  { intros x Hx%elem_of_lower_set.
    rewrite lower_set_sorted, (lower_set_restored _ _ Hm) in Hx.
    by apply elem_of_intersection in Hx as [_ ?]. }
  assert (Hin2 : ∀ x, x ∈ sorted missing → lower x ∉ lower_set resume_skills).
  { intros x Hx%elem_of_lower_set.
    rewrite lower_set_sorted, (lower_set_restored _ _ Hs) in Hx.
    by apply elem_of_difference in Hx as [_ ?]. }
  split.
  - apply set_eq. intros x.
    rewrite elem_of_intersection, !elem_of_list_to_set.
    split; [|by intros ?%not_elem_of_empty].
    intros [H1%Hin1 H2%Hin2]. by destruct H2.
  - intros x. rewrite elem_of_union, !elem_of_list_to_set, !elem_of_sorted.
    intros [Hx|Hx].
    + apply (proj1 (Forall_forall _ _) Lm) in Hx as (l1 & l2 & -> & _).
      apply elem_of_app. right. apply elem_of_cons. by left.
    + apply (proj1 (Forall_forall _ _) Ls) in Hx as (l1 & l2 & -> & _).
      apply elem_of_app. right. apply elem_of_cons. by left.
Qed.

Lemma scores_agree_below_spec (bound m n : nat) :
  scores_agree_below bound = true →
  (m ≤ n)%nat → (n < bound)%nat → score_agrees m n = true.
Proof.
  unfold scores_agree_below. intros H Hm Hn.
  rewrite forallb_forall in H.
  specialize (H n). rewrite forallb_forall in H.
  apply H; apply in_seq; lia.
Qed.

Lemma scores_agree_below_160 : scores_agree_below 160 = true.
Proof. vm_compute. reflexivity. Qed.

Lemma score_agrees_small (m n : nat) :
  (m ≤ n)%nat → (n < 160)%nat → score_agrees m n = true.
Proof. apply scores_agree_below_spec, scores_agree_below_160. Qed.

Lemma size_matched_le (resume jd : list string) :
  (size (lower_set jd ∩ lower_set resume) ≤ length jd)%nat.
Proof.
  trans (size (lower_set jd)).
  - apply subseteq_size. set_solver.
  - unfold lower_set.
    trans (length (lower <$> jd)); [|by rewrite length_fmap].
    induction (lower <$> jd) as [|x l IH]; cbn [list_to_set length].
    + by rewrite size_empty.
    + rewrite size_union_alt, size_singleton.
      apply le_n_S. etrans; [|apply IH].
      apply subseteq_size. set_solver.
Qed.

(** C5, as stated, fails: 23 matched skills out of a list of 160 give
    100 * 23 / 160 = 14.375, which rounds to 14.38 whichever way a tie goes;
    the code divides first, gets a product just below 14.375, and returns
    14.37. *)
Lemma score_rounding_counterexample :
  total_matched <$> calculate_match (take 23 SKILLS_DATABASE)
                                    (take 160 SKILLS_DATABASE) = Some 23
  ∧ total_jd_skills <$> calculate_match (take 23 SKILLS_DATABASE)
                                        (take 160 SKILLS_DATABASE) = Some 160
  ∧ score <$> calculate_match (take 23 SKILLS_DATABASE)
                              (take 160 SKILLS_DATABASE) = Some 14.37%float
  ∧ spec_hundredths_half_even 23 160 = 1438%Z
  ∧ spec_hundredths_half_up 23 160 = 1438%Z
  ∧ float_of_hundredths 1438 = 14.38%float
  ∧ PrimFloat.ltb 14.37 14.38 = true.
Proof.
  split; [vm_compute; reflexivity|]. split; [vm_compute; reflexivity|].
  split; [vm_compute; reflexivity|]. split; [vm_compute; reflexivity|].
  split; [vm_compute; reflexivity|]. split; vm_compute; reflexivity.
Qed.

(** C5, amended.  The score is 0.0 for an empty [jd_skills]; otherwise it is
    [round((m / n) * 100, 2)] in binary64 arithmetic, with m the number of
    distinct lower-cased JD skills that the lower-cased resume set holds and
    n the length of [jd_skills], duplicates counted.  For fewer than 160 JD
    skills this equals 100 * m / n rounded to two decimals (ties to even).
    [calculate_match(["Python"], ["Python","Python","SQL"])] has
    total_jd_skills 3, total_matched 1 and score 33.33. *)
Theorem score_arithmetic :
  (∀ resume_skills jd_skills : list string,
     ∃ r : MatchResult,
       calculate_match resume_skills jd_skills = Some r
       ∧ total_jd_skills r = length jd_skills
       ∧ total_matched r
         = size (lower_set jd_skills ∩ lower_set resume_skills)
       ∧ score r
         = match jd_skills with
           | [] => 0%float
           | _ :: _ =>
               py_round2 (float_of_nat (total_matched r)
                          / float_of_nat (total_jd_skills r) * 100)%float
           end)
  ∧ (∀ resume_skills jd_skills : list string,
       (length jd_skills < 160)%nat →
       ∃ r : MatchResult,
         calculate_match resume_skills jd_skills = Some r
         ∧ PrimFloat.eqb (score r)
             (float_of_hundredths
                (spec_hundredths_half_even (total_matched r)
                                           (total_jd_skills r))) = true)
  ∧ calculate_match ["Python"] ["Python"; "Python"; "SQL"]
    = Some (mkMatchResult 33.33 ["Python"] ["SQL"] 3 1).
Proof.
  split; [|split; [|by vm_compute]].
  - intros resume jd.
    destruct (calculate_match_Some resume jd)
      as (matched & missing & -> & Hm & _).
    eexists. split; [done|].
    cbn [total_jd_skills total_matched score].
    rewrite (restored_length _ _ Hm).
    split; [done|]. split; [done|]. by destruct jd.
  - intros resume jd Hlen.
    destruct (calculate_match_Some resume jd)
      as (matched & missing & -> & Hm & _).
    eexists. split; [done|].
    cbn [total_jd_skills total_matched score].
    rewrite (restored_length _ _ Hm).
    apply score_agrees_small; [apply size_matched_le | done].
Qed.

Lemma score_arithmetic_witness :
  ∃ r : MatchResult,
    calculate_match ["Python"; "Go"] ["python"; "SQL"; "go"; "Rust"] = Some r
    ∧ PrimFloat.eqb (score r)
        (float_of_hundredths
           (spec_hundredths_half_even (total_matched r)
                                      (total_jd_skills r))) = true.
Proof.
  apply (proj1 (proj2 score_arithmetic)
           ["Python"; "Go"] ["python"; "SQL"; "go"; "Rust"]).
  cbn [length]. lia.
Defined.

Lemma calculate_match_no_jd (resume_skills : list string) :
  calculate_match resume_skills [] = Some (mkMatchResult 0 [] [] 0 0).
Proof.
  destruct (calculate_match_Some resume_skills [])
    as (matched & missing & -> & Hm & Hs & _).
  assert (lower_set [] ∩ lower_set resume_skills = ∅) as He1 by set_solver.
  assert (lower_set [] ∖ lower_set resume_skills = ∅) as He2 by set_solver.
  rewrite He1 in *. rewrite He2 in *. rewrite elements_empty in Hm, Hs.
  apply fmap_nil_inv in Hm as ->. apply fmap_nil_inv in Hs as ->.
  by rewrite size_empty.
Qed.

(** C6.  [extract_skills] has no failing path and returns [[]] for the empty
    text and for [None]; [calculate_match] never raises (neither the
    division nor a dict lookup fails), and for an empty [jd_skills] it
    returns score 0.0, total_jd_skills 0 and two empty lists, whatever the
    resume skills. *)
Theorem total_on_degenerate_input :
  extract_skills (Some "") = []
  ∧ extract_skills None = []
  ∧ (∀ resume_skills jd_skills : list string,
       is_Some (calculate_match resume_skills jd_skills))
  ∧ (∀ resume_skills : list string,
       calculate_match resume_skills []
       = Some (mkMatchResult 0 [] [] 0 0)).
Proof.
  split; [done|]. split; [done|]. split.
  - intros resume jd.
    destruct (calculate_match_Some resume jd) as (? & ? & -> & _). by eexists.
  - apply calculate_match_no_jd.
Qed.

(** C7.  Every string of the two output lists is an element of [jd_skills],
    namely the last spelling there of its lower-case form; both lists are in
    ascending code-point order without repetition.
    [calculate_match(["Python"], ["python","SQL"])] returns matched
    [["python"]] and missing [["SQL"]]. *)
Theorem casing_restored_and_sorted :
  (∀ resume_skills jd_skills : list string,
     ∃ r : MatchResult,
       calculate_match resume_skills jd_skills = Some r
       ∧ Forall (last_seen jd_skills) (matched_skills r ++ missing_skills r)
       ∧ StronglySorted String.le (matched_skills r)
       ∧ NoDup (matched_skills r)
       ∧ StronglySorted String.le (missing_skills r)
       ∧ NoDup (missing_skills r))
  ∧ calculate_match ["Python"] ["python"; "SQL"]
    = Some (mkMatchResult 50 ["python"] ["SQL"] 2 1)
  ∧ matched_skills <$> calculate_match ["PYTHON"] ["Python"; "SQL"; "pYTHON"]
    = Some ["pYTHON"]
  ∧ missing_skills <$> calculate_match [] ["sql"; "Python"; "SQL"; "aws"]
    = Some ["Python"; "SQL"; "aws"].
Proof.
  split; [|split; [|split]]; [|vm_compute; reflexivity..].
  intros resume jd.
  destruct (calculate_match_Some resume jd)
    as (matched & missing & -> & Hm & Hs & Lm & Ls).
  eexists. split; [done|]. cbn [matched_skills missing_skills].
  split.
  { apply Forall_app. split; apply Forall_forall; intros x Hx.
    - rewrite elem_of_sorted in Hx. by apply (proj1 (Forall_forall _ _) Lm).
    - rewrite elem_of_sorted in Hx. by apply (proj1 (Forall_forall _ _) Ls). }
  split; [apply sorted_StronglySorted|].
  split; [eapply sorted_NoDup, restored_NoDup, Hm|].
  split; [apply sorted_StronglySorted|].
  eapply sorted_NoDup, restored_NoDup, Hs.
Qed.

(** ** get_skill_suggestions *)

Lemma find_category_truthy (skill_lower : string)
    (categories : list (string * list string)) :
  Forall (fun c => fst c ≠ "") categories →
  truthy (find_category skill_lower categories) = true
  ↔ skill_lower ∈ lower <$> mjoin (snd <$> categories).
Proof.
  induction 1 as [|[name skills] cats Hname _ IH]; cbn [find_category].
  - cbn. split; [done|]. by intros ?%elem_of_nil.
  - cbn [fmap list_fmap snd mjoin list_join]. rewrite fmap_app, elem_of_app.
    destruct (existsb _ skills) eqn:Hex.
    + split; [|by destruct name].
      intros _. left. apply existsb_exists in Hex as (s & Hs & Heq).
      apply String.eqb_eq in Heq as ->.
      apply list_elem_of_fmap. exists s. split; [done|].
      by apply list_elem_of_In.
    + rewrite IH. split; [by right|]. intros [Hin|?]; [|done].
      apply list_elem_of_fmap in Hin as (s & -> & Hs).
      assert (existsb (fun s0 => (lower s =? lower s0)%string) skills = true)
        as Hex'; [|by rewrite Hex in Hex'].
      apply existsb_exists. exists s. split; [by apply list_elem_of_In|].
      apply String.eqb_refl.
Qed.

Lemma category_names :
  Forall (fun c : string * list string => fst c ≠ "") skill_categories.
Proof. repeat constructor; discriminate. Qed.

Lemma suggest_cases (skill : string) :
  suggest skill
  = if bool_decide (in_fixed_category skill)
    then "Learn " +:+ skill +:+ " through online courses or projects"
    else "Consider gaining experience with " +:+ skill.
Proof.
  unfold suggest. cbn zeta.
  pose proof (find_category_truthy (lower skill) _ category_names) as H.
  destruct (truthy _) eqn:Ht.
  - rewrite bool_decide_eq_true_2; [done|]. by apply H.
  - rewrite bool_decide_eq_false_2; [done|].
    intros Hin. apply H in Hin. congruence.
Qed.

Lemma get_skill_suggestions_fmap (missing_skills : list string) :
  get_skill_suggestions missing_skills = suggest <$> missing_skills.
Proof.
  unfold get_skill_suggestions.
  induction missing_skills as [|s l IH] using rev_ind; [done|].
  by rewrite foldl_app, fmap_app, IH.
Qed.

(** C9.  [get_skill_suggestions] returns one string per input skill, in the
    order of the input: "Learn ... through online courses or projects" for a
    case-insensitive member of the frontend, backend, database or cloud
    category, "Consider gaining experience with ..." otherwise. *)
Theorem suggestions_one_per_skill (missing_skills : list string) :
  get_skill_suggestions missing_skills
  = (fun skill =>
       if bool_decide (in_fixed_category skill)
       then "Learn " +:+ skill +:+ " through online courses or projects"
       else "Consider gaining experience with " +:+ skill)
    <$> missing_skills
  ∧ length (get_skill_suggestions missing_skills) = length missing_skills
  ∧ fst <$> skill_categories = ["frontend"; "backend"; "database"; "cloud"]
  ∧ get_skill_suggestions ["React"]
    = ["Learn React through online courses or projects"]
  ∧ get_skill_suggestions ["Haskell"]
    = ["Consider gaining experience with Haskell"].
Proof.
  rewrite get_skill_suggestions_fmap.
  split; [|split; [by rewrite length_fmap|by vm_compute]].
  apply list_fmap_ext. intros _ skill _. apply suggest_cases.
Qed.

(** ** The catalog and its lookup *)

Lemma same_key_same_entry_spec (skills : list string) (a b : string) :
  same_key_same_entry skills = true →
  a ∈ skills → b ∈ skills → lower a = lower b → a = b.
Proof.
  unfold same_key_same_entry. intros H Ha%list_elem_of_In Hb%list_elem_of_In Hl.
  rewrite forallb_forall in H. specialize (H a Ha).
  rewrite forallb_forall in H. specialize (H b Hb).
  rewrite Hl, String.eqb_refl in H. by apply String.eqb_eq.
Qed.

Lemma lookup_keeps_entries_spec (skills : list string) (skill : string) :
  lookup_keeps_entries skills = true →
  skill ∈ skills → lower_map skills !! lower skill = Some skill.
Proof.
  unfold lookup_keeps_entries. intros H Hs%list_elem_of_In.
  rewrite forallb_forall in H. eapply bool_decide_eq_true_1, H, Hs.
Qed.

Lemma catalog_same_key_same_entry : same_key_same_entry SKILLS_DATABASE = true.
Proof. vm_compute. reflexivity. Qed.

Lemma catalog_lookup_keeps_entries :
  lookup_keeps_entries SKILLS_DATABASE = true.
Proof. vm_compute. reflexivity. Qed.

(** C1, as stated, fails: "DynamoDB" and "GraphQL" are each listed twice, so
    two entries of the catalog have one key, and the lookup has fewer keys
    than the catalog has entries. *)
Lemma catalog_keys_counterexample :
  SKILLS_DATABASE !! 80%nat = Some "DynamoDB"
  ∧ SKILLS_DATABASE !! 105%nat = Some "DynamoDB"
  ∧ SKILLS_DATABASE !! 150%nat = Some "GraphQL"
  ∧ SKILLS_DATABASE !! 235%nat = Some "GraphQL"
  ∧ ¬ NoDup (lower <$> SKILLS_DATABASE)
  ∧ length SKILLS_DATABASE = 272%nat
  ∧ size SKILLS_LOOKUP = 270%nat.
Proof.
  split; [vm_compute; reflexivity|]. split; [vm_compute; reflexivity|].
  split; [vm_compute; reflexivity|]. split; [vm_compute; reflexivity|].
  split; [eval_elem|]. split; vm_compute; reflexivity.
Qed.

(** C1, amended.  Catalog entries with the same lower-case key are the same
    string, and the lookup sends the key of every entry back to that entry,
    so it loses no skill name.  The lookup is built without any collision
    check: an entry whose key is already there takes its place. *)
Theorem catalog_keys :
  (∀ a b : string,
     a ∈ SKILLS_DATABASE → b ∈ SKILLS_DATABASE → lower a = lower b → a = b)
  ∧ (∀ skill : string,
       skill ∈ SKILLS_DATABASE → SKILLS_LOOKUP !! lower skill = Some skill)
  ∧ (∀ (skills : list string) (skill : string),
       lower_map (skills ++ [skill]) !! lower skill = Some skill)
  ∧ dom SKILLS_LOOKUP = lower_set SKILLS_DATABASE.
Proof.
  split; [|split; [|split]].
  - intros a b. apply same_key_same_entry_spec, catalog_same_key_same_entry.
  - intros skill.
    apply lookup_keeps_entries_spec, catalog_lookup_keeps_entries.
  - intros skills skill. rewrite lower_map_snoc. apply lookup_insert_eq.
  - apply dom_lower_map.
Qed.

Lemma catalog_keys_witness :
  SKILLS_LOOKUP !! lower "Node.js" = Some "Node.js".
Proof. apply (proj1 (proj2 catalog_keys) "Node.js"). eval_elem. Defined.

(** * Further properties of the module *)

(** ** extract_skills: shape of the result *)

Lemma extract_skills_in_catalog (text : option string) (skill : string) :
  skill ∈ extract_skills text → skill ∈ SKILLS_DATABASE.
Proof.
  destruct text as [t|]; [|by intros ?%elem_of_nil].
  by intros (_ & ? & _)%elem_of_extract_skills.
Qed.

Lemma extract_skills_NoDup (text : option string) : NoDup (extract_skills text).
Proof.
  destruct text as [[|c t]|]; try apply NoDup_nil_2.
  unfold extract_skills. apply sorted_NoDup, NoDup_elements.
Qed.

Lemma extract_skills_StronglySorted (text : option string) :
  StronglySorted String.le (extract_skills text).
Proof.
  destruct text as [[|c t]|]; try apply SSorted_nil.
  apply sorted_StronglySorted.
Qed.

Lemma extract_skills_Forall_catalog (text : option string) :
  Forall (fun skill => skill ∈ SKILLS_DATABASE) (extract_skills text).
Proof. apply Forall_forall. apply extract_skills_in_catalog. Qed.

Lemma extract_skills_length_le (text : option string) :
  (length (extract_skills text) ≤ length SKILLS_DATABASE)%nat.
Proof.
  apply submseteq_length, NoDup_submseteq; [apply extract_skills_NoDup|].
  apply extract_skills_in_catalog.
Qed.

(** The result of [extract_skills] is in ascending code-point order, has no
    repetition (although the catalog lists two entries twice), holds catalog
    entries only, and so has at most as many elements as the catalog. *)
Theorem extract_skills_result_shape (text : option string) :
  StronglySorted String.le (extract_skills text)
  ∧ NoDup (extract_skills text)
  ∧ Forall (fun skill => skill ∈ SKILLS_DATABASE) (extract_skills text)
  ∧ (length (extract_skills text) ≤ length SKILLS_DATABASE)%nat.
Proof.
  split; [apply extract_skills_StronglySorted|].
  split; [apply extract_skills_NoDup|].
  split; [apply extract_skills_Forall_catalog|].
  apply extract_skills_length_le.
Qed.

(** ** extract_skills: what the text is compared by *)

Lemma lower_char_idemp (c : ascii) : lower_char (lower_char c) = lower_char c.
Proof. by destruct c as [[] [] [] [] [] [] [] []]. Qed.

Lemma lower_idemp (s : string) : lower (lower s) = lower s.
Proof.
  induction s as [|c s IH]; [done|].
  cbn [lower]. by rewrite lower_char_idemp, IH.
Qed.

Lemma normalize_lower_normalize_char (c : ascii) :
  (let n := fun c => if is_kept c then c else " "%char in
   n (lower_char (n c)) = n (lower_char c)).
Proof. by destruct c as [[] [] [] [] [] [] [] []]. Qed.

Lemma normalize_lower_normalize (s : string) :
  normalize (lower (normalize s)) = normalize (lower s).
Proof.
  induction s as [|c s IH]; [done|].
  cbn [lower normalize]. rewrite IH. f_equal.
  apply normalize_lower_normalize_char.
Qed.

Lemma extract_skills_by_normal_form (t1 t2 : string) :
  normalize (lower t1) = normalize (lower t2) →
  extract_skills (Some t1) = extract_skills (Some t2).
Proof.
  intros H. destruct t1 as [|c1 t1], t2 as [|c2 t2]; try done.
  unfold extract_skills. by rewrite H.
Qed.

(** [extract_skills] does not see the case of the text, nor which
    character stands where the normalisation puts a space: the lower-cased
    text and the normalised text give the result of the text itself. *)
Theorem extract_skills_case_and_punctuation (text : string) :
  extract_skills (Some (lower text)) = extract_skills (Some text)
  ∧ extract_skills (Some (normalize text)) = extract_skills (Some text).
Proof.
  split; apply extract_skills_by_normal_form.
  - by rewrite lower_idemp.
  - apply normalize_lower_normalize.
Qed.

(** ** extract_skills: entries that cannot be found *)

Lemma is_kept_normalized (c : ascii) :
  is_kept (if is_kept c then c else " "%char) = true.
Proof. by destruct (is_kept c) eqn:Hk. Qed.

Lemma all_kept_normalize (s : string) : all_kept (normalize s) = true.
Proof.
  induction s as [|c s IH]; [done|].
  cbn [normalize all_kept]. by rewrite is_kept_normalized, IH.
Qed.

Lemma match_literal_dropped (p s : string) (prev : option ascii) :
  has_dropped_char p = true → all_kept s = true →
  match_literal p s prev = None.
Proof.
  revert s prev. induction p as [|a p IH]; intros s prev Hp Hs; [done|].
  destruct s as [|b s]; [done|].
  cbn [match_literal has_dropped_char all_kept] in *.
  apply andb_true_iff in Hs as [Hb Hs].
  destruct (Ascii.eqb_spec a b) as [->|Hne]; [|done].
  rewrite Hb in Hp. cbn [negb orb] in Hp. by apply IH.
Qed.

Lemma search_from_dropped (p s : string) (prev : option ascii) :
  has_dropped_char p = true → all_kept s = true →
  search_from p s prev = false.
Proof.
  intros Hp. revert prev. induction s as [|c s IH]; intros prev Hs.
  - cbn [search_from]. unfold match_here.
    rewrite (match_literal_dropped p "" prev Hp Hs).
    by rewrite andb_false_r.
  - cbn [search_from]. unfold match_here.
    rewrite (match_literal_dropped p _ prev Hp Hs), andb_false_r.
    cbn [all_kept] in Hs. apply andb_true_iff in Hs as [_ Hs].
    by apply IH.
Qed.

(** A catalog entry without a dot that holds a character which the
    normalisation replaces by a space is reported for no text at all; the
    catalog has two such entries, "PL/SQL" and "CI/CD". *)
Theorem dropped_char_entry_never_reported :
  (∀ skill text : string,
     has_dropped_char (lower skill) = true →
     contains_dot (lower skill) = false →
     skill ∉ extract_skills (Some text))
  ∧ filter (fun skill => has_dropped_char (lower skill) = true) SKILLS_DATABASE
    = ["PL/SQL"; "CI/CD"]
  ∧ contains_dot (lower "PL/SQL") = false
  ∧ contains_dot (lower "CI/CD") = false.
Proof.
  split; [|by vm_compute].
  intros skill text Hd Hdot (_ & _ & Hf)%elem_of_extract_skills.
  rewrite (skill_found_undotted _ _ Hdot) in Hf.
  unfold re_search_word in Hf.
  rewrite search_from_dropped in Hf; [done..|apply all_kept_normalize].
Qed.

Lemma dropped_char_entry_never_reported_witness :
  "PL/SQL" ∈ SKILLS_DATABASE
  ∧ "PL/SQL" ∉ extract_skills (Some "Oracle PL/SQL developer").
Proof.
  split; [eval_elem|].
  apply (proj1 dropped_char_entry_never_reported
           "PL/SQL" "Oracle PL/SQL developer"); by vm_compute.
Defined.

(** ** extract_skills: joining two texts *)

Lemma lower_app (s t : string) : lower (s +:+ t) = lower s +:+ lower t.
Proof.
  induction s as [|c s IH]; [done|].
  rewrite app_cons. cbn [lower]. by rewrite IH, app_cons.
Qed.

Lemma normalize_app (s t : string) :
  normalize (s +:+ t) = normalize s +:+ normalize t.
Proof.
  induction s as [|c s IH]; [done|].
  rewrite app_cons. cbn [normalize]. by rewrite IH, app_cons.
Qed.

Lemma match_literal_extend (p s t : string) (prev l : option ascii)
    (rest : string) :
  match_literal p s prev = Some (l, rest) →
  match_literal p (s +:+ t) prev = Some (l, rest +:+ t).
Proof.
  intros [-> ->]%match_literal_Some. apply match_literal_Some.
  split; [|done]. clear. induction p as [|a p IH]; [done|].
  by rewrite !app_cons, IH.
Qed.

Lemma head_char_extend (s : string) (c : ascii) (t : string) :
  is_word c = false →
  word_opt (head_char (s +:+ String c t)) = word_opt (head_char s).
Proof.
  intros Hc. destruct s as [|b s].
  - rewrite app_nil. cbn [head_char word_opt]. by rewrite Hc.
  - by rewrite app_cons.
Qed.

Lemma match_here_extend (p s : string) (c : ascii) (t : string)
    (prev : option ascii) :
  is_word c = false →
  match_here p s prev = true → match_here p (s +:+ String c t) prev = true.
Proof.
  intros Hc. unfold match_here, at_boundary.
  intros [Hb Hm]%andb_true_iff.
  destruct (match_literal p s prev) as [[l rest]|] eqn:Hl; [|done].
  rewrite (match_literal_extend _ _ _ _ _ _ Hl), !head_char_extend by done.
  by rewrite Hb, Hm.
Qed.

(** A match in a text is a match in the text followed by a non-word
    character and anything else. *)
Lemma search_from_extend (p s : string) (c : ascii) (t : string)
    (prev : option ascii) :
  is_word c = false →
  search_from p s prev = true → search_from p (s +:+ String c t) prev = true.
Proof.
  intros Hc. revert prev. induction s as [|b s IH]; intros prev.
  - cbn [search_from]. rewrite orb_false_r. intros Hm.
    apply (match_here_extend p "" c t prev Hc) in Hm.
    rewrite app_nil in *. cbn [search_from]. by rewrite Hm.
  - rewrite app_cons. cbn [search_from].
    intros [Hm|Hs]%orb_true_iff.
    + apply (match_here_extend p _ c t prev Hc) in Hm.
      rewrite app_cons in Hm. by rewrite Hm.
    + rewrite (IH _ Hs). apply orb_true_r.
Qed.

Lemma match_here_prev (p s : string) (prev prev' : option ascii) :
  word_opt prev = word_opt prev' →
  match_here p s prev = match_here p s prev'.
Proof.
  intros Hw. unfold match_here, at_boundary. rewrite Hw. f_equal.
  destruct p as [|a p].
  - cbn [match_literal]. by rewrite Hw.
  - destruct s as [|b s]; [done|]. cbn [match_literal].
    by destruct (Ascii.eqb a b).
Qed.

Lemma search_from_prev (p s : string) (prev prev' : option ascii) :
  word_opt prev = word_opt prev' →
  search_from p s prev = search_from p s prev'.
Proof.
  intros Hw. destruct s as [|b s]; cbn [search_from];
    by rewrite (match_here_prev p _ prev prev' Hw).
Qed.

(** A match in a text is a match in the text preceded by anything and a
    non-word character. *)
Lemma search_from_skip (p s t : string) (c : ascii) (prev : option ascii) :
  is_word c = false →
  search_from p t None = true → search_from p (s +:+ String c t) prev = true.
Proof.
  intros Hc Ht. revert prev. induction s as [|b s IH]; intros prev.
  - rewrite app_nil. cbn [search_from].
    rewrite (search_from_prev p t (Some c) None) by (by cbn; rewrite Hc).
    rewrite Ht. apply orb_true_r.
  - rewrite app_cons. cbn [search_from]. rewrite IH. apply orb_true_r.
Qed.

Lemma skill_found_orb (tn skill : string) :
  skill_found tn skill
  = re_search_word (lower skill) tn
    || contains_dot (lower skill)
       && re_search_word (before_dot (lower skill)) tn.
Proof.
  unfold skill_found.
  destruct (re_search_word (lower skill) tn); [done|].
  by destruct (contains_dot (lower skill)).
Qed.

Lemma skill_found_mono (tn tn' skill : string) :
  (∀ p, re_search_word p tn = true → re_search_word p tn' = true) →
  skill_found tn skill = true → skill_found tn' skill = true.
Proof.
  intros Hmono. rewrite !skill_found_orb.
  intros [H|[Hd H]%andb_true_iff]%orb_true_iff.
  - by rewrite (Hmono _ H).
  - rewrite Hd, (Hmono _ H). apply orb_true_r.
Qed.

(** Joining two texts with a character that is not a word character (a
    space, a line break, a comma) loses no skill: what either text yields,
    the joined text yields. *)
Theorem extract_skills_of_joined_texts
    (t1 t2 : string) (sep : ascii) (skill : string) :
  is_word sep = false →
  skill ∈ extract_skills (Some t1) ∨ skill ∈ extract_skills (Some t2) →
  skill ∈ extract_skills (Some (t1 +:+ String sep t2)).
Proof.
  intros Hsep Hin.
  assert (Hsep' : is_word (if is_kept (lower_char sep) then lower_char sep
                           else " "%char) = false).
  { by rewrite is_word_normalized, is_word_lower_char. }
  rewrite elem_of_extract_skills, lower_app, normalize_app.
  cbn [lower normalize].
  split; [by destruct t1|].
  destruct Hin as [(_ & Hc & Hf)%elem_of_extract_skills
                  |(_ & Hc & Hf)%elem_of_extract_skills];
    (split; [done|]); revert Hf; apply skill_found_mono; intros p;
    unfold re_search_word.
  - by apply search_from_extend.
  - by apply search_from_skip.
Qed.

Lemma extract_skills_of_joined_texts_witness :
  "Python" ∈ extract_skills (Some ("We use Python" +:+ String "010" "and Go")).
Proof.
  apply (extract_skills_of_joined_texts "We use Python" "and Go" "010" "Python").
  - by vm_compute.
  - left. eval_elem.
Defined.

(** ** calculate_match: counts *)

Lemma length_sorted (l : list string) : length (sorted l) = length l.
Proof. unfold sorted. by rewrite merge_sort_Permutation. Qed.

Lemma size_lower_set_le (l : list string) :
  (size (lower_set l) ≤ length l)%nat.
Proof.
  unfold lower_set. rewrite <- (length_fmap lower l).
  induction (lower <$> l) as [|x k IH]; cbn [list_to_set length].
  - by rewrite size_empty.
  - rewrite size_union_alt, size_singleton.
    apply le_n_S. etrans; [|apply IH]. apply subseteq_size. set_solver.
Qed.

(** The two output lists together have one string for every distinct
    lower-cased JD skill: their lengths add up to the number of those, which
    is at most [total_jd_skills], and [total_matched] is the length of
    [matched_skills]. *)
Theorem match_counts (resume_skills jd_skills : list string) :
  ∃ r : MatchResult,
    calculate_match resume_skills jd_skills = Some r
    ∧ total_matched r = length (matched_skills r)
    ∧ (length (matched_skills r) + length (missing_skills r)
       = size (lower_set jd_skills))%nat
    ∧ (size (lower_set jd_skills) ≤ total_jd_skills r)%nat
    ∧ (total_matched r ≤ total_jd_skills r)%nat.
Proof.
  destruct (calculate_match_Some resume_skills jd_skills)
    as (matched & missing & -> & Hm & Hs & _).
  eexists. split; [done|].
  cbn [matched_skills missing_skills total_matched total_jd_skills].
  rewrite !length_sorted.
  rewrite (restored_length _ _ Hm), (restored_length _ _ Hs).
  split; [done|]. split; [|split].
  - rewrite <- size_union by set_solver. f_equal.
    apply set_eq. intros x.
    destruct (decide (x ∈ lower_set resume_skills)); set_solver.
  - apply size_lower_set_le.
  - apply size_matched_le.
Qed.

(** ** calculate_match: what the inputs are compared by *)

Lemma lower_set_Permutation (l k : list string) :
  l ≡ₚ k → lower_set l = lower_set k.
Proof.
  intros Hp. unfold lower_set. apply set_eq. intros x.
  by rewrite !elem_of_list_to_set, Hp.
Qed.

Lemma lower_map_lookup_NoDup (l : list string) (k s : string) :
  NoDup (lower <$> l) →
  lower_map l !! k = Some s ↔ s ∈ l ∧ lower s = k.
Proof.
  intros Hnd. split.
  - intros [Hk (l1 & l2 & -> & _)]%lower_map_lookup_Some.
    split; [|done]. apply elem_of_app. right. by left.
  - intros [Hs <-].
    assert (is_Some (lower_map l !! lower s)) as [s' Hs'].
    { apply elem_of_dom. rewrite dom_lower_map. by apply elem_of_lower_set. }
    rewrite Hs'. f_equal.
    apply lower_map_lookup_Some in Hs' as [Hk (l1 & l2 & -> & _)].
    assert (s' ∈ l1 ++ s' :: l2) as Hin by (apply elem_of_app; right; by left).
    apply list_elem_of_lookup in Hin as [i Hi].
    apply list_elem_of_lookup in Hs as [j Hj].
    assert (i = j) as ->.
    { eapply (NoDup_lookup _ _ _ _ Hnd).
      - by rewrite list_lookup_fmap, Hi.
      - by rewrite list_lookup_fmap, Hj; cbn; rewrite Hk. }
    congruence.
Qed.

Lemma lower_map_Permutation (l k : list string) :
  NoDup (lower <$> l) → l ≡ₚ k → lower_map l = lower_map k.
Proof.
  intros Hnd Hp. assert (NoDup (lower <$> k)) as Hnd' by by rewrite <- Hp.
  apply map_eq. intros key. apply option_eq. intros s.
  rewrite !lower_map_lookup_NoDup by done. by rewrite Hp.
Qed.

(** [calculate_match] sees the resume skills only as a set of lower-cased
    strings: order, repetition and case of [resume_skills] do not change the
    result.  When no two JD skills share a lower-case form, the order of
    [jd_skills] does not change it either. *)
Theorem match_input_order_and_case :
  (∀ resume1 resume2 jd_skills : list string,
     lower_set resume1 = lower_set resume2 →
     calculate_match resume1 jd_skills = calculate_match resume2 jd_skills)
  ∧ (∀ resume_skills jd_skills : list string,
       calculate_match (lower <$> resume_skills) jd_skills
       = calculate_match resume_skills jd_skills)
  ∧ (∀ resume_skills jd1 jd2 : list string,
       NoDup (lower <$> jd1) → jd1 ≡ₚ jd2 →
       calculate_match resume_skills jd1 = calculate_match resume_skills jd2).
Proof.
  assert (Hres : ∀ resume1 resume2 jd_skills : list string,
     lower_set resume1 = lower_set resume2 →
     calculate_match resume1 jd_skills = calculate_match resume2 jd_skills).
  { intros r1 r2 jd H. unfold calculate_match. cbn zeta. by rewrite H. }
  split; [done|]. split.
  - intros resume jd. apply Hres. unfold lower_set.
    rewrite <- list_fmap_compose. f_equal. apply list_fmap_ext.
    intros _ x _. apply lower_idemp.
  - intros resume jd1 jd2 Hnd Hp. unfold calculate_match. cbn zeta.
    rewrite (lower_set_Permutation _ _ Hp), (lower_map_Permutation _ _ Hnd Hp).
    by rewrite (Permutation_length Hp).
Qed.

Lemma match_input_order_and_case_witness :
  calculate_match ["go"; "PYTHON"; "Go"] ["SQL"; "Python"; "Go"]
  = calculate_match ["Python"; "GO"] ["Go"; "SQL"; "Python"].
Proof.
  etrans.
  - apply (proj1 match_input_order_and_case
             ["go"; "PYTHON"; "Go"] ["Python"; "GO"]). by vm_compute.
  - apply (proj2 (proj2 match_input_order_and_case)
             ["Python"; "GO"] ["SQL"; "Python"; "Go"] ["Go"; "SQL"; "Python"]).
    + eval_elem.
    + eval_elem.
Defined.

(** ** From extraction to matching *)

Lemma StronglySorted_filter (P : string → Prop) `{∀ x, Decision (P x)}
    (l : list string) :
  StronglySorted String.le l → StronglySorted String.le (filter P l).
Proof.
  induction 1 as [|x l _ IH Hx]; [constructor|].
  rewrite filter_cons. destruct (decide (P x)); [|done].
  constructor; [done|].
  apply Forall_forall. intros y [_ Hy]%list_elem_of_filter.
  by apply (proj1 (Forall_forall _ _) Hx).
Qed.

Lemma sorted_of_StronglySorted (l k : list string) :
  StronglySorted String.le k → NoDup l → NoDup k →
  (∀ x, x ∈ l ↔ x ∈ k) → sorted l = k.
Proof.
  intros Hk Hl Hnd Hiff.
  apply (StronglySorted_unique String.le);
    [apply sorted_StronglySorted | done |].
  unfold sorted. rewrite merge_sort_Permutation.
  by apply NoDup_Permutation.
Qed.

Lemma catalog_keys_facts :
  (∀ a b : string,
     a ∈ SKILLS_DATABASE → b ∈ SKILLS_DATABASE → lower a = lower b → a = b)
  ∧ (∀ skill : string,
       skill ∈ SKILLS_DATABASE → SKILLS_LOOKUP !! lower skill = Some skill).
Proof.
  split.
  - intros a b. apply same_key_same_entry_spec, catalog_same_key_same_entry.
  - intros skill.
    apply lookup_keeps_entries_spec, catalog_lookup_keeps_entries.
Qed.

Lemma last_seen_elem_of (l : list string) (s : string) :
  last_seen l s → s ∈ l.
Proof. intros (l1 & l2 & -> & _). apply elem_of_app. right. by left. Qed.

Lemma elem_of_lower_set_inv (x : string) (l : list string) :
  x ∈ lower_set l → ∃ y, y ∈ l ∧ lower y = x.
Proof.
  unfold lower_set. rewrite elem_of_list_to_set, list_elem_of_fmap.
  intros (y & -> & Hy). by exists y.
Qed.

(** The match of two lists of catalog entries, the second one sorted and
    without repetition: the output lists are the JD skills that are,
    respectively are not, among the resume skills. *)
Lemma calculate_match_catalog_lists (rs js : list string) :
  Forall (fun s => s ∈ SKILLS_DATABASE) rs →
  Forall (fun s => s ∈ SKILLS_DATABASE) js →
  StronglySorted String.le js → NoDup js →
  ∃ r : MatchResult,
    calculate_match rs js = Some r
    ∧ matched_skills r = filter (fun s => s ∈ rs) js
    ∧ missing_skills r = filter (fun s => s ∉ rs) js
    ∧ total_jd_skills r = length js
    ∧ total_matched r = length (filter (fun s => s ∈ rs) js)
    ∧ score r
      = py_round2 (raw_score (length (filter (fun s => s ∈ rs) js))
                             (length js)).
Proof.
  intros Hrs Hjs Hsorted Hnd.
  assert (Hinj : ∀ a b, a ∈ rs ∨ a ∈ js → b ∈ rs ∨ b ∈ js →
                        lower a = lower b → a = b).
  { intros a b Ha Hb. apply (proj1 catalog_keys_facts).
    - destruct Ha as [Ha|Ha];
        [apply (proj1 (Forall_forall _ _) Hrs _ Ha)
        |apply (proj1 (Forall_forall _ _) Hjs _ Ha)].
    - destruct Hb as [Hb|Hb];
        [apply (proj1 (Forall_forall _ _) Hrs _ Hb)
        |apply (proj1 (Forall_forall _ _) Hjs _ Hb)]. }
  destruct (calculate_match_Some rs js)
    as (matched & missing & -> & Hm & Hs & Lm & Ls).
  assert (Hmatched : ∀ x, x ∈ matched ↔ x ∈ filter (fun s => s ∈ rs) js).
  { intros x. rewrite list_elem_of_filter. split.
    - intros Hx.
      pose proof (last_seen_elem_of _ _
                    (proj1 (Forall_forall _ _) Lm x Hx)) as Hxj.
      split; [|done].
      apply elem_of_lower_set in Hx.
      rewrite (lower_set_restored _ _ Hm) in Hx.
      apply elem_of_intersection in Hx as [_ (y & Hy & Hl)%elem_of_lower_set_inv].
      by rewrite <- (Hinj y x (or_introl Hy) (or_intror Hxj) Hl).
    - intros [Hxr Hxj].
      assert (lower x ∈ lower_set matched) as (y & Hy & Hl)%elem_of_lower_set_inv.
      { rewrite (lower_set_restored _ _ Hm).
        apply elem_of_intersection. split; by apply elem_of_lower_set. }
      pose proof (last_seen_elem_of _ _
                    (proj1 (Forall_forall _ _) Lm y Hy)) as Hyj.
      by rewrite <- (Hinj y x (or_intror Hyj) (or_intror Hxj) Hl). }
  assert (Hmissing : ∀ x, x ∈ missing ↔ x ∈ filter (fun s => s ∉ rs) js).
  { intros x. rewrite list_elem_of_filter. split.
    - intros Hx.
      pose proof (last_seen_elem_of _ _
                    (proj1 (Forall_forall _ _) Ls x Hx)) as Hxj.
      split; [|done].
      apply elem_of_lower_set in Hx.
      rewrite (lower_set_restored _ _ Hs) in Hx.
      apply elem_of_difference in Hx as [_ Hx].
      intros Hxr. by apply Hx, elem_of_lower_set.
    - intros [Hxr Hxj].
      assert (lower x ∈ lower_set missing) as (y & Hy & Hl)%elem_of_lower_set_inv.
      { rewrite (lower_set_restored _ _ Hs).
        apply elem_of_difference. split; [by apply elem_of_lower_set|].
        intros (y & Hy & Hl)%elem_of_lower_set_inv.
        by rewrite (Hinj y x (or_introl Hy) (or_intror Hxj) Hl) in Hy. }
      pose proof (last_seen_elem_of _ _
                    (proj1 (Forall_forall _ _) Ls y Hy)) as Hyj.
      by rewrite <- (Hinj y x (or_intror Hyj) (or_intror Hxj) Hl). }
  eexists. split; [done|].
  cbn [matched_skills missing_skills total_jd_skills total_matched].
  assert (sorted matched = filter (fun s => s ∈ rs) js) as Hm'.
  { apply sorted_of_StronglySorted; [by apply StronglySorted_filter
      | by eapply restored_NoDup | by apply NoDup_filter | done]. }
  split; [done|]. split.
  - apply sorted_of_StronglySorted; [by apply StronglySorted_filter
      | by eapply restored_NoDup | by apply NoDup_filter | done].
  - split; [done|]. rewrite <- Hm', length_sorted.
    split; [done|]. by rewrite (restored_length _ _ Hm).
Qed.

Lemma length_filter_split (P : string → Prop) `{∀ x, Decision (P x)}
    (l : list string) :
  (length (filter P l) + length (filter (fun x => ¬ P x) l) = length l)%nat.
Proof.
  induction l as [|x l IH]; [done|].
  rewrite !filter_cons. destruct (decide (P x)) as [Hx|Hx].
  - rewrite decide_False by tauto. cbn [length]. lia.
  - rewrite decide_True by done. cbn [length]. lia.
Qed.

Lemma filter_all (P : string → Prop) `{∀ x, Decision (P x)} (l : list string) :
  Forall P l → filter P l = l.
Proof.
  induction 1 as [|x l Hx _ IH]; [done|].
  by rewrite filter_cons, decide_True, IH.
Qed.

Lemma filter_none (P : string → Prop) `{∀ x, Decision (P x)} (l : list string) :
  Forall (fun x => ¬ P x) l → filter P l = [].
Proof.
  induction 1 as [|x l Hx _ IH]; [done|].
  by rewrite filter_cons, decide_False, IH.
Qed.

Lemma end_scores_upto_spec (bound n : nat) :
  end_scores_upto bound = true → (n < bound)%nat →
  PrimFloat.eqb (py_round2 (raw_score (S n) (S n))) 100 = true
  ∧ PrimFloat.eqb (py_round2 (raw_score 0 n)) 0 = true.
Proof.
  unfold end_scores_upto. intros H Hn. rewrite forallb_forall in H.
  apply andb_true_iff, H, in_seq. lia.
Qed.

Lemma end_scores_catalog : end_scores_upto 273 = true.
Proof. vm_compute. reflexivity. Qed.

Lemma dotnet_found (text : string) :
  has_word_char text = true → ".NET" ∈ extract_skills (Some text).
Proof.
  intros Hw. apply elem_of_extract_skills.
  split; [by destruct text|]. split; [eval_elem|].
  apply skill_found_by_base; [by vm_compute|].
  change (before_dot (lower ".NET")) with "".
  apply search_from_empty; [done|].
  by rewrite has_word_char_normalize, has_word_char_lower.
Qed.

(** The skills of a resume text matched against the skills of a job
    description, as the analysis route does when it is given texts: the
    matched skills are the JD skills found in the resume text, the missing
    ones the JD skills not found there, both in the order of the JD skills;
    [total_jd_skills] counts the JD skills without repetition. *)
Theorem match_of_extracted_skills (resume_text jd_text : option string) :
  ∃ r : MatchResult,
    calculate_match (extract_skills resume_text) (extract_skills jd_text)
    = Some r
    ∧ matched_skills r
      = filter (fun s => s ∈ extract_skills resume_text)
               (extract_skills jd_text)
    ∧ missing_skills r
      = filter (fun s => s ∉ extract_skills resume_text)
               (extract_skills jd_text)
    ∧ total_jd_skills r = length (extract_skills jd_text)
    ∧ (total_matched r + length (missing_skills r) = total_jd_skills r)%nat.
Proof.
  destruct (calculate_match_catalog_lists
              (extract_skills resume_text) (extract_skills jd_text))
    as (r & Hr & Hm & Hs & Ht & Hn & _).
  - apply extract_skills_Forall_catalog.
  - apply extract_skills_Forall_catalog.
  - apply extract_skills_StronglySorted.
  - apply extract_skills_NoDup.
  - exists r. split; [done|]. split; [done|]. split; [done|]. split; [done|].
    rewrite Hn, Hs, Ht. apply length_filter_split.
Qed.

(** A text matched against itself misses nothing and, unless no skill is
    found in it, scores 100.0; two texts that each hold a word character
    always have ".NET" among the matched skills. *)
Theorem match_of_extracted_skills_ends :
  (∀ text : option string,
     ∃ r : MatchResult,
       calculate_match (extract_skills text) (extract_skills text) = Some r
       ∧ matched_skills r = extract_skills text
       ∧ missing_skills r = []
       ∧ PrimFloat.eqb (score r)
           (match extract_skills text with [] => 0 | _ :: _ => 100 end) = true)
  ∧ (∀ resume_text jd_text : string,
       has_word_char resume_text = true → has_word_char jd_text = true →
       ∃ r : MatchResult,
         calculate_match (extract_skills (Some resume_text))
                         (extract_skills (Some jd_text)) = Some r
         ∧ ".NET" ∈ matched_skills r
         ∧ (1 ≤ total_matched r)%nat).
Proof.
  split.
  - intros text.
    destruct (calculate_match_catalog_lists
                (extract_skills text) (extract_skills text))
      as (r & Hr & Hm & Hs & Ht & Hn & Hsc);
      [apply extract_skills_Forall_catalog..
      |apply extract_skills_StronglySorted|apply extract_skills_NoDup|].
    exists r. split; [done|].
    rewrite filter_all in Hm, Hsc by (by apply Forall_forall).
    rewrite filter_none in Hs by (apply Forall_forall; tauto).
    split; [done|]. split; [done|]. rewrite Hsc.
    pose proof (extract_skills_length_le text) as Hlen.
    change (length SKILLS_DATABASE) with 272%nat in Hlen.
    destruct (extract_skills text) as [|s l]; [done|].
    cbn [length] in *.
    apply (end_scores_upto_spec 273 (length l) end_scores_catalog). lia.
  - intros resume_text jd_text Hr Hj.
    destruct (calculate_match_catalog_lists
                (extract_skills (Some resume_text))
                (extract_skills (Some jd_text)))
      as (r & Hres & Hm & Hs & Ht & Hn & Hsc);
      [apply extract_skills_Forall_catalog..
      |apply extract_skills_StronglySorted|apply extract_skills_NoDup|].
    exists r. split; [done|].
    assert (".NET" ∈ matched_skills r) as Hin.
    { rewrite Hm. apply list_elem_of_filter. split; by apply dotnet_found. }
    split; [done|]. rewrite Hn, <- Hm.
    destruct (matched_skills r); [by apply elem_of_nil in Hin|cbn; lia].
Qed.

Lemma match_of_extracted_skills_ends_witness :
  ∃ r : MatchResult,
    calculate_match (extract_skills (Some "Java developer"))
                    (extract_skills (Some "Python developer wanted")) = Some r
    ∧ ".NET" ∈ matched_skills r
    ∧ (1 ≤ total_matched r)%nat.
Proof.
  apply (proj2 match_of_extracted_skills_ends
           "Java developer" "Python developer wanted"); by vm_compute.
Defined.

(** * The route, the PDF helpers and the connection string *)

(** ** The analysis route: parameters *)



(** ** Stripping and splitting *)

Lemma is_word_not_space (c : ascii) : is_word c = true → is_space c = false.
Proof. by destruct c as [[] [] [] [] [] [] [] []]. Qed.

Lemma is_punct_not_space (c : ascii) : is_punct c = true → is_space c = false.
Proof. by destruct c as [[] [] [] [] [] [] [] []]. Qed.

Lemma is_upper_not_space (c : ascii) : is_upper c = true → is_space c = false.
Proof. by destruct c as [[] [] [] [] [] [] [] []]. Qed.

Lemma is_upper_not_punct (c : ascii) : is_upper c = true → is_punct c = false.
Proof. by destruct c as [[] [] [] [] [] [] [] []]. Qed.

Lemma last_char_app (prev : option ascii) (s t : string) :
  last_char prev (s +:+ t) = last_char (last_char prev s) t.
Proof.
  revert prev. induction s as [|c s IH]; intros prev; [done|].
  rewrite app_cons. cbn [last_char]. apply IH.
Qed.

Lemma app_assoc_string (s t u : string) : (s +:+ t) +:+ u = s +:+ t +:+ u.
Proof.
  induction s as [|c s IH]; [done|]. by rewrite !app_cons, IH.
Qed.

Lemma app_nil_r_string (s : string) : s +:+ "" = s.
Proof. induction s as [|c s IH]; [done|]. by rewrite app_cons, IH. Qed.

Lemma lstrip_head (s : string) : space_opt (head_char (lstrip s)) = false.
Proof.
  induction s as [|c s IH]; [done|]. cbn [lstrip].
  destruct (is_space c) eqn:Hc; [done|]. cbn. by rewrite Hc.
Qed.

Lemma rstrip_cons (c : ascii) (s : string) :
  rstrip (String c s)
  = match rstrip s with
    | EmptyString => if is_space c then EmptyString else String c EmptyString
    | r => String c r
    end.
Proof. reflexivity. Qed.

Lemma rstrip_last (s : string) : space_opt (last_char None (rstrip s)) = false.
Proof.
  induction s as [|c s IH]; [done|]. rewrite rstrip_cons.
  destruct (rstrip s) as [|d r].
  - destruct (is_space c) eqn:Hc; [done|]. cbn. by rewrite Hc.
  - exact IH.
Qed.

Lemma rstrip_head (s : string) :
  space_opt (head_char s) = false → space_opt (head_char (rstrip s)) = false.
Proof.
  destruct s as [|c s]; [done|]. cbn [head_char space_opt]. intros Hc.
  rewrite rstrip_cons. destruct (rstrip s); by rewrite ?Hc; cbn; rewrite ?Hc.
Qed.

Lemma strip_trimmed (s : string) : trimmed (strip s).
Proof.
  split; [apply rstrip_head, lstrip_head | apply rstrip_last].
Qed.

Lemma lstrip_id (s : string) : space_opt (head_char s) = false → lstrip s = s.
Proof. destruct s as [|c s]; [done|]. cbn. by intros ->. Qed.

Lemma rstrip_id (s : string) :
  space_opt (last_char None s) = false → rstrip s = s.
Proof.
  induction s as [|c s IH]; [done|]. rewrite rstrip_cons.
  destruct s as [|d s].
  - cbn. by intros ->.
  - intros H. by rewrite (IH H).
Qed.

Lemma strip_id (s : string) : trimmed s → strip s = s.
Proof.
  intros [Hh Hl]. unfold strip. rewrite (lstrip_id s Hh). by apply rstrip_id.
Qed.

Lemma has_char_lstrip (a : ascii) (s : string) :
  has_char a s = false → has_char a (lstrip s) = false.
Proof.
  induction s as [|c s IH]; [done|]. cbn [lstrip has_char].
  intros [Hc Hs]%orb_false_iff.
  destruct (is_space c); [by apply IH|]. cbn [has_char]. by rewrite Hc, Hs.
Qed.

Lemma has_char_rstrip (a : ascii) (s : string) :
  has_char a s = false → has_char a (rstrip s) = false.
Proof.
  induction s as [|c s IH]; [done|]. rewrite rstrip_cons. cbn [has_char].
  intros [Hc Hs]%orb_false_iff. specialize (IH Hs).
  destruct (rstrip s) as [|d r].
  - destruct (is_space c); [done|]. cbn. by rewrite Hc.
  - cbn [has_char] in *. by rewrite Hc, IH.
Qed.

Lemma has_char_strip (a : ascii) (s : string) :
  has_char a s = false → has_char a (strip s) = false.
Proof. intros H. by apply has_char_rstrip, has_char_lstrip. Qed.

Lemma split_on_pieces (sep : ascii) (s : string) :
  Forall (fun piece => has_char sep piece = false) (split_on sep s).
Proof.
  induction s as [|c s IH]; [by repeat constructor|].
  cbn [split_on]. destruct (Ascii.eqb c sep) eqn:Hc.
  - by constructor.
  - destruct (split_on sep s) as [|piece pieces]; [by repeat constructor; cbn; rewrite Hc|].
    apply Forall_cons in IH as [Hp Hps].
    constructor; [|done]. cbn. by rewrite Hc, Hp.
Qed.

Lemma split_on_app (sep : ascii) (x rest : string) :
  has_char sep x = false →
  split_on sep (x +:+ String sep rest) = x :: split_on sep rest.
Proof.
  induction x as [|c x IH]; intros Hx.
  - rewrite app_nil. cbn [split_on]. by rewrite Ascii.eqb_refl.
  - cbn [has_char] in Hx. apply orb_false_iff in Hx as [Hc Hx].
    rewrite app_cons. cbn [split_on]. by rewrite Hc, (IH Hx).
Qed.

Lemma split_on_single (sep : ascii) (x : string) :
  has_char sep x = false → split_on sep x = [x].
Proof.
  induction x as [|c x IH]; [done|]. cbn [has_char split_on].
  intros [Hc Hx]%orb_false_iff. by rewrite Hc, (IH Hx).
Qed.

(** A comma-separated [resume_skills] string becomes a list of strings that
    are not empty, carry no white space at either end and hold no comma; a
    list of such strings joined by commas is given back as it was. *)
Theorem comma_string_skills :
  (∀ resume_skills : string,
     Forall clean_skill (skills_of_comma_string resume_skills))
  ∧ (∀ skills : list string,
       Forall clean_skill skills →
       skills_of_comma_string (join_with "," skills) = skills).
Proof.
  split.
  - intros s. unfold skills_of_comma_string.
    apply Forall_fmap, Forall_forall.
    intros piece [Hne Hin]%list_elem_of_filter.
    split; [done|]. split; [apply strip_trimmed|].
    apply has_char_strip.
    by apply (proj1 (Forall_forall _ _) (split_on_pieces "," s)).
  - intros skills. unfold skills_of_comma_string.
    induction 1 as [|x l (Hne & Htr & Hc) Hl IH]; [done|].
    destruct l as [|y l].
    + cbn [join_with]. rewrite (split_on_single _ _ Hc).
      rewrite filter_cons, decide_True by by rewrite strip_id.
      cbn. by rewrite strip_id.
    + change (join_with "," (x :: y :: l))
        with (x +:+ String "," (join_with "," (y :: l))).
      rewrite (split_on_app _ _ _ Hc).
      rewrite filter_cons, decide_True by by rewrite strip_id.
      rewrite fmap_cons, IH. by rewrite strip_id.
Qed.

Lemma comma_string_skills_witness :
  skills_of_comma_string (join_with "," ["Python"; "Node.js"; "SQL Server"])
  = ["Python"; "Node.js"; "SQL Server"].
Proof.
  apply (proj2 comma_string_skills ["Python"; "Node.js"; "SQL Server"]).
  repeat constructor; by vm_compute.
Defined.

(** ** The text scanners, one by one *)

Lemma all_space_app (s t : string) :
  all_space (s +:+ t) = all_space s && all_space t.
Proof.
  induction s as [|c s IH]; [done|].
  rewrite app_cons. cbn [all_space]. by rewrite IH, andb_assoc.
Qed.

Lemma space_before_punct_app (prev : option ascii) (s t : string) :
  space_before_punct prev (s +:+ t)
  = space_before_punct prev s || space_before_punct (last_char prev s) t.
Proof.
  revert prev. induction s as [|c s IH]; intros prev; [done|].
  rewrite app_cons. cbn [space_before_punct last_char].
  by rewrite IH, orb_assoc.
Qed.

Lemma punct_before_upper_app (prev : option ascii) (s t : string) :
  punct_before_upper prev (s +:+ t)
  = punct_before_upper prev s || punct_before_upper (last_char prev s) t.
Proof.
  revert prev. induction s as [|c s IH]; intros prev; [done|].
  rewrite app_cons. cbn [punct_before_upper last_char].
  by rewrite IH, orb_assoc.
Qed.

Lemma is_space_not_punct (c : ascii) : is_space c = true → is_punct c = false.
Proof. by destruct c as [[] [] [] [] [] [] [] []]. Qed.

Lemma is_space_not_upper (c : ascii) : is_space c = true → is_upper c = false.
Proof. by destruct c as [[] [] [] [] [] [] [] []]. Qed.

Lemma space_before_punct_all_space (prev : option ascii) (s : string) :
  all_space s = true → space_before_punct prev s = false.
Proof.
  revert prev. induction s as [|c s IH]; intros prev; [done|].
  cbn [all_space space_before_punct]. intros [Hc Hs]%andb_true_iff.
  by rewrite (is_space_not_punct c Hc), andb_false_r, IH.
Qed.

Lemma punct_before_upper_all_space (prev : option ascii) (s : string) :
  all_space s = true → punct_before_upper prev s = false.
Proof.
  revert prev. induction s as [|c s IH]; intros prev; [done|].
  cbn [all_space punct_before_upper]. intros [Hc Hs]%andb_true_iff.
  by rewrite (is_space_not_upper c Hc), andb_false_r, IH.
Qed.

Lemma all_space_snoc (s : string) (c : ascii) :
  all_space s = true → is_space c = true →
  all_space (s +:+ String c "") = true.
Proof. intros Hs Hc. rewrite all_space_app, Hs. cbn. by rewrite Hc. Qed.

(** *** [unspace_punct] *)

Lemma unspace_punct_from_no_space_before_punct
    (s pending : string) (prev : option ascii) :
  all_space pending = true → space_opt prev = false →
  space_before_punct prev (unspace_punct_from pending s) = false.
Proof.
  revert pending prev. induction s as [|c s IH]; intros pending prev Hp Hprev.
  - by apply space_before_punct_all_space.
  - cbn [unspace_punct_from]. destruct (is_space c) eqn:Hc.
    { apply IH; [by apply all_space_snoc | done]. }
    destruct (is_punct c) eqn:Hpu.
    + cbn [space_before_punct]. rewrite Hprev. cbn [andb orb].
      apply IH; [done | by cbn].
    + rewrite space_before_punct_app,
        (space_before_punct_all_space _ _ Hp).
      cbn [space_before_punct orb]. rewrite Hpu, andb_false_r. cbn [orb].
      apply IH; [done | by cbn].
Qed.

Lemma unspace_punct_from_all_space (s pending : string) :
  all_space (unspace_punct_from pending s) = all_space (pending +:+ s).
Proof.
  revert pending. induction s as [|c s IH]; intros pending.
  - by rewrite app_nil_r_string.
  - cbn [unspace_punct_from]. destruct (is_space c) eqn:Hc.
    { rewrite IH. by rewrite app_assoc_string. }
    assert (all_space (pending +:+ String c s) = false) as ->.
    { rewrite all_space_app. cbn [all_space]. by rewrite Hc, andb_false_r. }
    destruct (is_punct c).
    + cbn [all_space]. by rewrite Hc.
    + rewrite all_space_app. cbn [all_space]. by rewrite Hc, andb_false_r.
Qed.

Lemma unspace_punct_from_last (s pending : string) (prev : option ascii) :
  last_char prev (unspace_punct_from pending s)
  = last_char prev (pending +:+ s).
Proof.
  revert pending prev. induction s as [|c s IH]; intros pending prev.
  - by rewrite app_nil_r_string.
  - cbn [unspace_punct_from]. destruct (is_space c) eqn:Hc.
    { rewrite IH. by rewrite app_assoc_string. }
    rewrite (last_char_app prev pending). cbn [last_char].
    destruct (is_punct c).
    + cbn [last_char]. by rewrite IH.
    + rewrite last_char_app. cbn [last_char]. by rewrite IH.
Qed.

Lemma unspace_punct_head (s : string) :
  space_opt (head_char s) = false →
  head_char (unspace_punct s) = head_char s.
Proof.
  destruct s as [|c s]; [done|]. cbn [head_char space_opt]. intros Hc.
  unfold unspace_punct. cbn [unspace_punct_from]. rewrite Hc.
  by destruct (is_punct c).
Qed.

(** *** [space_after_punct] *)

Lemma space_after_punct_from_no_space_before_punct
    (s : string) (st : option string) (prev : option ascii) :
  all_space (default "" st) = true →
  space_before_punct prev (default "" st +:+ s) = false →
  space_before_punct prev (space_after_punct_from st s) = false.
Proof.
  revert st prev. induction s as [|c s IH]; intros st prev Hst Hin.
  - cbn [space_after_punct_from]. by rewrite app_nil_r_string in Hin.
  - cbn [space_after_punct_from]. destruct st as [ws|]; cbn [from_option id] in *.
    + destruct (is_space c) eqn:Hc.
      { apply IH; cbn [from_option id]; [by apply all_space_snoc|].
        by rewrite app_assoc_string. }
      rewrite space_before_punct_app in Hin.
      apply orb_false_iff in Hin as [Hws Hin].
      cbn [space_before_punct] in Hin.
      apply orb_false_iff in Hin as [Hc' Hin].
      destruct (is_upper c) eqn:Hu.
      { cbn [space_before_punct space_opt].
        replace (is_punct " ") with false by done.
        rewrite (is_upper_not_punct c Hu), !andb_false_r. cbn [orb].
        by apply IH. }
      assert (Hout : ∀ R, space_before_punct prev (ws +:+ String c R)
                          = space_before_punct (Some c) R).
      { intros R. rewrite space_before_punct_app, Hws.
        cbn [space_before_punct orb]. by rewrite Hc'. }
      destruct (is_punct c); rewrite Hout; by apply IH.
    + rewrite app_nil in Hin. cbn [space_before_punct] in Hin.
      apply orb_false_iff in Hin as [Hc' Hin].
      assert (Hout : ∀ R, space_before_punct prev (String c R)
                          = space_before_punct (Some c) R).
      { intros R. cbn [space_before_punct]. by rewrite Hc'. }
      destruct (is_punct c); rewrite Hout; by apply IH.
Qed.

Lemma space_after_punct_from_no_punct_before_upper
    (s : string) (st : option string) (prev : option ascii) :
  all_space (default "" st) = true →
  (st = None → punct_opt prev = false) →
  punct_before_upper prev (space_after_punct_from st s) = false.
Proof.
  revert st prev. induction s as [|c s IH]; intros st prev Hst Hprev.
  - cbn [space_after_punct_from]. by apply punct_before_upper_all_space.
  - cbn [space_after_punct_from]. destruct st as [ws|]; cbn [from_option id] in *.
    + destruct (is_space c) eqn:Hc.
      { apply IH; [by apply all_space_snoc | done]. }
      destruct (is_upper c) eqn:Hu.
      { cbn [punct_before_upper punct_opt].
        replace (is_upper " ") with false by done.
        replace (is_punct " ") with false by done.
        rewrite andb_false_r. cbn [andb orb].
        apply IH; [done|]. intros _. cbn. by apply is_upper_not_punct. }
      assert (Hout : ∀ R, punct_before_upper prev (ws +:+ String c R)
                          = punct_before_upper (Some c) R).
      { intros R. rewrite punct_before_upper_app,
          (punct_before_upper_all_space _ _ Hst).
        cbn [punct_before_upper orb]. by rewrite Hu, andb_false_r. }
      destruct (is_punct c) eqn:Hpu; rewrite Hout;
        (apply IH; [done|]); [done|by intros _; cbn].
    + specialize (Hprev eq_refl).
      assert (Hout : ∀ R, punct_before_upper prev (String c R)
                          = punct_before_upper (Some c) R).
      { intros R. cbn [punct_before_upper]. by rewrite Hprev. }
      destruct (is_punct c) eqn:Hpu; rewrite Hout;
        (apply IH; [done|]); [done|by intros _; cbn].
Qed.

Lemma space_after_punct_from_all_space (s : string) (st : option string) :
  all_space (default "" st) = true →
  all_space (space_after_punct_from st s) = all_space s.
Proof.
  revert st. induction s as [|c s IH]; intros st Hst; [by destruct st|].
  cbn [space_after_punct_from all_space].
  destruct st as [ws|]; cbn [from_option id] in *.
  - destruct (is_space c) eqn:Hc.
    { rewrite IH; [done|]. by apply all_space_snoc. }
    destruct (is_upper c) eqn:Hu; [by cbn; rewrite Hc, andb_false_r|].
    destruct (is_punct c); rewrite all_space_app; cbn [all_space];
      by rewrite Hc, andb_false_r.
  - destruct (is_punct c); cbn [all_space]; by rewrite IH.
Qed.

Lemma space_after_punct_from_last
    (s : string) (st : option string) (prev : option ascii) :
  last_char prev (space_after_punct_from st s)
  = last_char prev (default "" st +:+ s).
Proof.
  revert st prev. induction s as [|c s IH]; intros st prev.
  - by rewrite app_nil_r_string.
  - cbn [space_after_punct_from]. destruct st as [ws|]; cbn [from_option id].
    + destruct (is_space c) eqn:Hc.
      { rewrite IH. cbn [from_option id]. by rewrite app_assoc_string. }
      rewrite (last_char_app prev ws). cbn [last_char].
      destruct (is_upper c); [cbn [last_char]; by rewrite IH|].
      destruct (is_punct c); rewrite last_char_app; cbn [last_char];
        by rewrite IH.
    + rewrite app_nil. destruct (is_punct c); cbn [last_char]; by rewrite IH.
Qed.

Lemma space_after_punct_head (s : string) :
  head_char (space_after_punct s) = head_char s.
Proof.
  destruct s as [|c s]; [done|]. unfold space_after_punct.
  cbn [space_after_punct_from]. by destruct (is_punct c).
Qed.

(** *** [dehyphenate] *)

Lemma dehyphenate_from_last (s : string) (st : hyphen_state)
    (prev : option ascii) :
  last_char prev (dehyphenate_from st s)
  = last_char prev (hyphen_pending st +:+ s).
Proof.
  revert st prev. induction s as [|c s IH]; intros st prev.
  - rewrite app_nil_r_string. by destruct st.
  - cbn [dehyphenate_from].
    destruct st as [|w1|w1 ws nl|]; cbn [hyphen_pending].
    + rewrite app_nil. destruct (is_word c).
      * rewrite IH. cbn [hyphen_pending]. by rewrite app_cons, app_nil.
      * cbn [last_char]. by rewrite IH.
    + destruct (is_word c).
      { rewrite IH. cbn [hyphen_pending].
        by rewrite app_assoc_string, app_cons, app_nil. }
      destruct (Ascii.eqb_spec c "-") as [->|Hne].
      * rewrite IH. cbn [hyphen_pending].
        by rewrite app_nil_r_string, !app_assoc_string, app_cons, app_nil.
      * rewrite !last_char_app. cbn [last_char]. by rewrite IH.
    + destruct (is_space c).
      { rewrite IH. cbn [hyphen_pending].
        by rewrite !app_assoc_string, app_cons, app_nil. }
      rewrite !app_assoc_string, !last_char_app. cbn [last_char].
      destruct (is_word c).
      * destruct nl.
        -- rewrite last_char_app. cbn [last_char]. by rewrite IH.
        -- rewrite !last_char_app, IH. cbn [hyphen_pending last_char].
           by rewrite app_cons, app_nil.
      * rewrite !last_char_app. cbn [last_char]. by rewrite IH.
    + rewrite app_nil. destruct (is_word c); cbn [last_char]; by rewrite IH.
Qed.

Lemma dehyphenate_from_prefix (s : string) (st : hyphen_state) :
  ∃ rest, dehyphenate_from st s = hyphen_prefix st +:+ rest.
Proof.
  revert st. induction s as [|c s IH]; intros st.
  - destruct st as [|w1|w1 ws nl|]; cbn [dehyphenate_from hyphen_prefix].
    + by exists "".
    + exists "". by rewrite app_nil_r_string.
    + by eexists.
    + by exists "".
  - cbn [dehyphenate_from]. destruct st as [|w1|w1 ws nl|]; cbn [hyphen_prefix];
      try (eexists; by rewrite app_nil).
    + destruct (is_word c).
      { destruct (IH (HWord (w1 +:+ String c ""))) as [rest ->].
        cbn [hyphen_prefix]. eexists. by rewrite app_assoc_string. }
      destruct (Ascii.eqb c "-"); [|by eexists].
      destruct (IH (HBreak w1 "" false)) as [rest ->]. by eexists.
    + destruct (is_space c).
      { destruct (IH (HBreak w1 (ws +:+ String c "") (nl || Ascii.eqb c "010")))
          as [rest ->]. by eexists. }
      destruct (is_word c); [destruct nl|]; by eexists.
Qed.

Lemma dehyphenate_head (s : string) :
  head_char (dehyphenate s) = head_char s.
Proof.
  destruct s as [|c s]; [done|]. unfold dehyphenate.
  cbn [dehyphenate_from]. destruct (is_word c); [|done].
  destruct (dehyphenate_from_prefix s (HWord (String c ""))) as [rest ->].
  done.
Qed.

Lemma all_space_word_run (c : ascii) (s : string) :
  is_word c = true → all_space (String c s) = false.
Proof. intros Hc. cbn. by rewrite (is_word_not_space c Hc). Qed.

Lemma dehyphenate_from_all_space (s : string) (st : hyphen_state) :
  all_space (dehyphenate_from st s) = all_space (hyphen_pending st +:+ s).
Proof.
  revert st. induction s as [|c s IH]; intros st.
  - rewrite app_nil_r_string. by destruct st.
  - cbn [dehyphenate_from].
    destruct st as [|w1|w1 ws nl|]; cbn [hyphen_pending].
    + rewrite app_nil. destruct (is_word c).
      * rewrite IH. cbn [hyphen_pending]. by rewrite app_cons, app_nil.
      * cbn [all_space]. by rewrite IH.
    + destruct (is_word c).
      { rewrite IH. cbn [hyphen_pending].
        by rewrite app_assoc_string, app_cons, app_nil. }
      destruct (Ascii.eqb_spec c "-") as [->|Hne].
      * rewrite IH. cbn [hyphen_pending].
        by rewrite app_nil_r_string, !app_assoc_string, app_cons, app_nil.
      * rewrite !all_space_app. cbn [all_space]. by rewrite IH.
    + destruct (is_space c) eqn:Hc.
      { rewrite IH. cbn [hyphen_pending].
        by rewrite !app_assoc_string, app_cons, app_nil. }
      assert (all_space ((w1 +:+ "-" +:+ ws) +:+ String c s) = false) as ->.
      { rewrite all_space_app. cbn [all_space]. by rewrite Hc, andb_false_r. }
      destruct (is_word c); [destruct nl|];
        rewrite ?all_space_app; cbn [all_space];
        by rewrite ?Hc, ?andb_false_r.
    + rewrite app_nil. destruct (is_word c); cbn [all_space]; by rewrite IH.
Qed.

(** *** The first four steps *)

Lemma all_space_collapse_spaces (s : string) :
  all_space (collapse_spaces s) = all_space s.
Proof.
  induction s as [|c s IH]; [done|]. cbn [collapse_spaces].
  destruct (Ascii.eqb_spec c " ") as [->|Hc].
  - destruct s as [|d s]; [done|].
    destruct (Ascii.eqb_spec d " ") as [->|Hd].
    + rewrite IH. done.
    + cbn [all_space] in *. by rewrite IH.
  - cbn [all_space]. by rewrite IH.
Qed.

Lemma all_space_collapse_newlines_from (run : nat) (s : string) :
  all_space (collapse_newlines_from run s) = all_space s.
Proof.
  revert run. induction s as [|c s IH]; intros run; [done|].
  cbn [collapse_newlines_from].
  destruct (Ascii.eqb_spec c "010") as [->|Hc].
  - destruct (run <? 2)%nat; cbn [all_space]; by rewrite IH.
  - cbn [all_space]. by rewrite IH.
Qed.

Lemma all_space_lstrip (s : string) : all_space (lstrip s) = all_space s.
Proof.
  induction s as [|c s IH]; [done|]. cbn [lstrip all_space].
  destruct (is_space c) eqn:Hc; [done|]. cbn. by rewrite Hc.
Qed.

Lemma all_space_rstrip (s : string) : all_space (rstrip s) = all_space s.
Proof.
  induction s as [|c s IH]; [done|]. rewrite rstrip_cons. cbn [all_space].
  rewrite <- IH. destruct (rstrip s) as [|d r].
  - destruct (is_space c) eqn:Hc; [done|]. cbn. by rewrite Hc.
  - done.
Qed.

Lemma all_space_strip (s : string) : all_space (strip s) = all_space s.
Proof. unfold strip. by rewrite all_space_rstrip, all_space_lstrip. Qed.

Lemma all_space_join_lines (l : list string) :
  all_space (join_with (String "010" "") l) = forallb all_space l.
Proof.
  induction l as [|x l IH]; [done|]. destruct l as [|y l].
  - cbn. by rewrite andb_true_r.
  - change (join_with (String "010" "") (x :: y :: l))
      with (x +:+ String "010" (join_with (String "010" "") (y :: l))).
    rewrite all_space_app. cbn [all_space forallb] in *. by rewrite IH.
Qed.

Lemma all_space_split_lines (s : string) :
  forallb all_space (split_on "010" s) = all_space s.
Proof.
  induction s as [|c s IH]; [done|]. cbn [split_on all_space].
  destruct (Ascii.eqb_spec c "010") as [->|Hc].
  - cbn [forallb all_space]. by rewrite IH.
  - rewrite <- IH. destruct (split_on "010" s) as [|piece pieces].
    + cbn. by rewrite !andb_true_r.
    + cbn [forallb all_space]. by rewrite andb_assoc.
Qed.

Lemma all_space_strip_lines (s : string) :
  all_space (strip_lines s) = all_space s.
Proof.
  unfold strip_lines. rewrite all_space_join_lines, <- all_space_split_lines.
  induction (split_on "010" s) as [|x l IH]; [done|].
  cbn [fmap list_fmap forallb]. rewrite all_space_strip. f_equal. apply IH.
Qed.

(** ** clean_extracted_text *)

Lemma clean_extracted_text_unfold (text : string) :
  clean_extracted_text text
  = space_after_punct (unspace_punct (dehyphenate (stripped_text text))).
Proof. by destruct text. Qed.

Lemma all_space_stripped_text (text : string) :
  all_space (stripped_text text) = all_space text.
Proof.
  unfold stripped_text, collapse_newlines.
  by rewrite all_space_strip, all_space_strip_lines,
    all_space_collapse_newlines_from, all_space_collapse_spaces.
Qed.

Lemma all_space_clean_extracted_text (text : string) :
  all_space (clean_extracted_text text) = all_space text.
Proof.
  rewrite clean_extracted_text_unfold.
  unfold space_after_punct, unspace_punct, dehyphenate.
  rewrite space_after_punct_from_all_space by done.
  rewrite unspace_punct_from_all_space, app_nil.
  rewrite dehyphenate_from_all_space. cbn [hyphen_pending].
  rewrite app_nil. apply all_space_stripped_text.
Qed.

Lemma clean_extracted_text_trimmed (text : string) :
  trimmed (clean_extracted_text text).
Proof.
  rewrite clean_extracted_text_unfold.
  destruct (strip_trimmed (strip_lines (collapse_newlines
                                          (collapse_spaces text))))
    as [Hh Hl].
  fold (stripped_text text) in Hh, Hl. split.
  - rewrite space_after_punct_head, unspace_punct_head;
      by rewrite dehyphenate_head.
  - unfold space_after_punct, unspace_punct, dehyphenate.
    rewrite space_after_punct_from_last. cbn [from_option id].
    rewrite app_nil, unspace_punct_from_last, app_nil.
    rewrite dehyphenate_from_last. cbn [hyphen_pending]. by rewrite app_nil.
Qed.

(** The cleaned text neither starts nor ends with white space, and it is
    empty exactly when the text holds nothing but white space: cleaning
    never empties a text that has a visible character. *)
Theorem clean_extracted_text_ends (text : string) :
  trimmed (clean_extracted_text text)
  ∧ (clean_extracted_text text = "" ↔ all_space text = true).
Proof.
  split; [apply clean_extracted_text_trimmed|].
  rewrite <- all_space_clean_extracted_text.
  destruct (clean_extracted_text_trimmed text) as [Hh _].
  destruct (clean_extracted_text text) as [|c s]; [done|].
  cbn in *. rewrite Hh. done.
Qed.

(** In the cleaned text no white space stands right before one of
    [. , ; : ! ?], and none of these marks stands right before a letter
    A-Z. *)
Theorem clean_extracted_text_punctuation (text : string) :
  space_before_punct None (clean_extracted_text text) = false
  ∧ punct_before_upper None (clean_extracted_text text) = false.
Proof.
  rewrite clean_extracted_text_unfold. unfold space_after_punct. split.
  - apply space_after_punct_from_no_space_before_punct; [done|].
    cbn [from_option id]. rewrite app_nil.
    by apply unspace_punct_from_no_space_before_punct.
  - by apply space_after_punct_from_no_punct_before_upper.
Qed.

(** ** extract_text_from_pdf: from page texts to the result *)

Lemma trimmed_all_space (s : string) :
  trimmed s → all_space s = true → s = "".
Proof.
  intros [Hh _] Hs. destruct s as [|c s]; [done|].
  cbn in *. by rewrite Hh in Hs.
Qed.

Lemma strip_empty_iff (s : string) : strip s = "" ↔ all_space s = true.
Proof.
  rewrite <- all_space_strip. split; [by intros ->|].
  apply trimmed_all_space, strip_trimmed.
Qed.

Lemma all_space_page_block (page_text : option string) :
  all_space (page_block page_text) = page_blank page_text.
Proof.
  destruct page_text as [t|]; [|done]. cbn [page_block page_blank].
  rewrite <- (all_space_strip t). destruct (strip t) as [|c s]; [done|].
  rewrite all_space_app. cbn [all_space].
  replace (is_space "010") with true by done. by rewrite !andb_true_r.
Qed.

Lemma all_space_gathered (page_texts : list (option string)) (acc : string) :
  all_space (foldl (fun text_content page_text =>
                      text_content +:+ page_block page_text)
                   acc page_texts)
  = all_space acc && forallb page_blank page_texts.
Proof.
  revert acc. induction page_texts as [|p l IH]; intros acc.
  - cbn. by rewrite andb_true_r.
  - cbn [foldl forallb].
    by rewrite IH, all_space_app, all_space_page_block, andb_assoc.
Qed.

(** [extract_text_from_pdf] raises its ValueError exactly when no page left
    visible text; otherwise the text it returns is not empty, has a visible
    character, and neither starts nor ends with white space. *)
Theorem text_of_pages_result (page_texts : list (option string)) :
  (text_of_pages page_texts = None ↔ forallb page_blank page_texts = true)
  ∧ (∀ text : string,
       text_of_pages page_texts = Some text →
       text ≠ "" ∧ all_space text = false ∧ trimmed text).
Proof.
  unfold text_of_pages. cbn zeta.
  pose proof (all_space_gathered page_texts "") as Hall.
  cbn [all_space andb] in Hall.
  set (text_content := foldl _ "" page_texts) in *.
  pose proof (strip_empty_iff text_content) as Hstrip.
  destruct (strip text_content) as [|c s] eqn:Hs.
  - split.
    + rewrite <- Hall. split; [intros _; by apply Hstrip | done].
    + by intros text.
  - assert (all_space text_content = false) as Hvis.
    { destruct (all_space text_content); [|done].
      pose proof (proj2 Hstrip eq_refl) as He. congruence. }
    split.
    + rewrite <- Hall, Hvis. by split.
    + intros text [= <-].
      assert (all_space (clean_extracted_text text_content) = false) as Hc
        by by rewrite all_space_clean_extracted_text.
      split; [by intros He; rewrite He in Hc|].
      split; [done | apply clean_extracted_text_trimmed].
Qed.

Lemma text_of_pages_result_witness :
  text_of_pages [Some "  "; None; Some " Senior  engineer ,Python "]
  = Some "Senior engineer, Python"
  ∧ "Senior engineer, Python" ≠ ""
  ∧ all_space "Senior engineer, Python" = false
  ∧ trimmed "Senior engineer, Python".
Proof.
  split; [vm_compute; reflexivity|].
  apply (proj2 (text_of_pages_result
                  [Some "  "; None; Some " Senior  engineer ,Python "])).
  vm_compute. reflexivity.
Defined.

(** ** validate_pdf *)


Lemma ends_with_nonempty (suffix s : string) :
  suffix ≠ "" → ends_with suffix s = true → s ≠ "".
Proof. intros Hs He ->. by destruct suffix. Qed.



(** ** The connection string (models/analysis.py) *)

Lemma prefix_app (n s t : string) :
  String.prefix n s = true → String.prefix n (s +:+ t) = true.
Proof.
  revert s. induction n as [|a n IH]; intros s;
    [intros _; by destruct (s +:+ t)|].
  destruct s as [|b s]; [done|]. rewrite app_cons. cbn [String.prefix].
  destruct (ascii_dec a b); [apply IH|done].
Qed.

Lemma contains_app_l (n s t : string) :
  contains n s = true → contains n (s +:+ t) = true.
Proof.
  induction s as [|c s IH].
  - cbn [contains]. rewrite orb_false_r. intros H.
    apply (prefix_app n "" t) in H. rewrite app_nil in *.
    destruct t; cbn [contains]; by rewrite H.
  - rewrite app_cons. cbn [contains]. intros [H|H]%orb_true_iff.
    + apply (prefix_app n _ t) in H. rewrite app_cons in H. by rewrite H.
    + rewrite (IH H). apply orb_true_r.
Qed.

Lemma contains_char (a : ascii) (s : string) :
  contains (String a "") s = has_char a s.
Proof.
  induction s as [|c s IH]; [done|]. cbn [contains has_char String.prefix].
  rewrite IH. destruct (ascii_dec a c) as [->|Hne].
  - rewrite Ascii.eqb_refl. by destruct s.
  - destruct (Ascii.eqb_spec c a) as [->|_]; [done|]. done.
Qed.

Lemma has_char_app (a : ascii) (s t : string) :
  has_char a (s +:+ t) = has_char a s || has_char a t.
Proof.
  induction s as [|c s IH]; [done|]. rewrite app_cons. cbn [has_char].
  by rewrite IH, orb_assoc.
Qed.

Lemma rstrip_char_cons (a c : ascii) (s : string) :
  rstrip_char a (String c s)
  = match rstrip_char a s with
    | EmptyString => if Ascii.eqb c a then EmptyString else String c EmptyString
    | r => String c r
    end.
Proof. reflexivity. Qed.

Lemma rstrip_char_snoc (a : ascii) (s : string) :
  rstrip_char a (s +:+ String a "") = rstrip_char a s.
Proof.
  induction s as [|c s IH].
  - rewrite app_nil. cbn [rstrip_char]. by rewrite Ascii.eqb_refl.
  - by rewrite app_cons, !rstrip_char_cons, IH.
Qed.

(** A connection string that already holds a "?" is handed to the client
    without the retry options, and with a "/" put after its last option
    unless it ends in one.  A connection string with a scheme and no "?" gets
    the options after a single "/", however many "/" it ended with. *)
Theorem client_uri_cases :
  (∀ mongo_uri : string,
     contains "?" mongo_uri = true →
     client_uri mongo_uri
     = if ends_with "/" mongo_uri then mongo_uri else mongo_uri +:+ "/")
  ∧ (∀ mongo_uri : string,
       contains "?" mongo_uri = false →
       contains "mongodb+srv://" mongo_uri || contains "mongodb://" mongo_uri
       = true →
       client_uri mongo_uri
       = rstrip_char "/" mongo_uri +:+ "/?retryWrites=true&w=majority"
       ∧ client_uri (mongo_uri +:+ "/") = client_uri mongo_uri).
Proof.
  assert (Hq : ∀ u, contains "?" (u +:+ "/") = contains "?" u).
  { intros u. rewrite !contains_char, has_char_app. cbn. by rewrite orb_false_r. }
  assert (Hs : ∀ u,
    contains "mongodb+srv://" u || contains "mongodb://" u = true →
    contains "mongodb+srv://" (u +:+ "/") || contains "mongodb://" (u +:+ "/")
    = true).
  { intros u [H|H]%orb_true_iff; rewrite (contains_app_l _ _ "/" H);
      [done|apply orb_true_r]. }
  assert (Hcase : ∀ u,
    contains "?" u = false →
    contains "mongodb+srv://" u || contains "mongodb://" u = true →
    client_uri u = rstrip_char "/" u +:+ "/?retryWrites=true&w=majority").
  { intros u Hno Hscheme. unfold client_uri.
    destruct (ends_with "/" u); cbn [negb].
    - by rewrite Hscheme, Hno.
    - by rewrite (Hs u Hscheme), Hq, Hno, (rstrip_char_snoc "/" u). }
  split.
  - intros u Hhas. unfold client_uri.
    destruct (ends_with "/" u); cbn [negb].
    + rewrite Hhas. cbn [negb]. by destruct (_ || _).
    + rewrite Hq, Hhas. cbn [negb]. by destruct (_ || _).
  - intros u Hno Hscheme. split; [by apply Hcase|].
    rewrite (Hcase u Hno Hscheme), Hcase;
      [by rewrite (rstrip_char_snoc "/" u) | by rewrite Hq | by apply Hs].
Qed.

Lemma client_uri_cases_witness :
  client_uri "mongodb+srv://u:p@c0.example.net/?retryWrites=true&w=majority"
  = "mongodb+srv://u:p@c0.example.net/?retryWrites=true&w=majority/"
  ∧ client_uri "mongodb://localhost:27017/"
    = "mongodb://localhost:27017/?retryWrites=true&w=majority".
Proof.
  split.
  - etrans; [apply (proj1 client_uri_cases); by vm_compute|].
    by vm_compute.
  - etrans; [apply (proj2 client_uri_cases); by vm_compute|].
    by vm_compute.
Defined.
